(** * The blockchain event indexer of backend/src/services/indexer.js

    A shallow embedding of [BlockchainIndexer]: the projection tables of
    database/schema.sql that the indexer reads and writes, every SQL
    statement it issues, the five event handlers, the historical catch-up
    loop and the real-time listeners.

    Every [await query(...)] of the source is one autocommitted statement:
    the source imports [transaction] but never calls it.  Programs are
    therefore trees of statements ([prog]), run either to completion
    ([exec]) or until the process dies after a number of statements
    ([exec_until]).

    The statements are read against schema.sql as it is written, the rows
    that [query] returns as node-postgres builds them, and the calls on the
    contract as ethers (version 6) answers them. *)

From Stdlib Require Import ZArith List Lia Bool Ascii String Sorted.
From Stdlib Require Import DecimalString DecimalZ.
From stdpp Require Import gmap strings list fin_maps.

Local Open Scope string_scope.
Local Open Scope Z_scope.

(** ** Strings *)

(** [String.prototype.toLowerCase] on the ASCII range (wallet addresses are
    hexadecimal). *)
Definition lower_ascii (c : ascii) : ascii :=
  let n := nat_of_ascii c in
  if ((65 <=? n)%nat && (n <=? 90)%nat)%bool then ascii_of_nat (n + 32) else c.

Fixpoint toLowerCase (s : string) : string :=
  match s with
  | EmptyString => EmptyString
  | String c r => String (lower_ascii c) (toLowerCase r)
  end.

(** ** JavaScript values

    The values that reach the block arithmetic of [indexHistoricalEvents]:
    numbers (integers, as block numbers are), strings, and NaN. *)

Inductive js_value :=
| JNumber (n : Z)
| JString (s : string)
| NaN.

Coercion JNumber : Z >-> js_value.

(** [String(n)] of an integer, which is also the text in which PostgreSQL
    sends an int8. *)
Definition decimal (n : Z) : string := NilZero.string_of_int (Z.to_int n).

(** [Number(s)] on the strings that occur here: an optional minus sign
    followed by decimal digits, and the empty string, which is 0.  Any
    other string is read as NaN. *)
Definition StringToNumber (s : string) : option Z :=
  match s with
  | EmptyString => Some 0
  | _ => Z.of_int <$> NilZero.int_of_string s
  end.

Definition ToNumber (v : js_value) : js_value :=
  match v with
  | JNumber n => JNumber n
  | JString s => match StringToNumber s with Some n => JNumber n | None => NaN end
  | NaN => NaN
  end.

(** [v + n]: the sum of two numbers; a string is concatenated with
    [String(n)]. *)
Definition js_plus (v : js_value) (n : Z) : js_value :=
  match v with
  | JNumber m => JNumber (m + n)
  | JString s => JString (s ++ decimal n)
  | NaN => NaN
  end.

(** [v - n] converts [v] to a number first. *)
Definition js_minus (v : js_value) (n : Z) : js_value :=
  match ToNumber v with
  | JNumber m => JNumber (m - n)
  | _ => NaN
  end.

(** [Math.min(v, n)] *)
Definition Math_min (v : js_value) (n : Z) : js_value :=
  match ToNumber v with
  | JNumber m => JNumber (Z.min m n)
  | _ => NaN
  end.

(** [v <= n] and [v >= n]: both sides are compared as numbers, and a
    comparison with NaN is false. *)
Definition js_le (v : js_value) (n : Z) : bool :=
  match ToNumber v with
  | JNumber m => m <=? n
  | _ => false
  end.

Definition js_ge (v : js_value) (n : Z) : bool :=
  match ToNumber v with
  | JNumber m => m >=? n
  | _ => false
  end.

(** [new Date(ms)]: a time value beyond 8.64e15 ms either side of the epoch
    gives an Invalid Date ([None]). *)
Definition js_date (ms : Z) : option Z :=
  if (-8640000000000000 <=? ms) && (ms <=? 8640000000000000) then Some ms else None.

(** ** The projection tables (database/schema.sql)

    Each table is a finite map from its UNIQUE business key to the columns
    the indexer names in its statements.  The other columns are not kept in
    the rows; the one constraint among them that bears on the indexer, title
    NOT NULL of bounties and of submissions, is accounted for in the two
    INSERT statements below.  The SERIAL [id] columns that the indexer
    selects are kept as fields, with the sequence that feeds them.
    Timestamps and NUMERIC values are integers. *)

(** users, keyed by wallet_address. *)
Record user_row := {
  u_id : Z;
  u_role : string
}.

(** hunter_stats, keyed by wallet_address; the three counters DEFAULT 0. *)
Record stats_row := {
  total_earned : Z;
  successful_submissions : Z;
  total_submissions : Z
}.

(** bounties, keyed by the on-chain bounty_id.
    status: 0=Active, 1=Dinilai, 2=Valid, 3=Invalid, 4=Completed, 5=Cancelled. *)
Record bounty_row := {
  b_id : Z;
  b_company_id : Z;
  b_target_contract_address : string;
  b_total_reward : Z;
  b_remaining_reward : Z;
  b_lock_amount : Z;
  b_status : Z;
  b_deadline : Z;
  b_is_active : bool;
  b_payment_token : string;
  b_block_number : Z;
  b_tx_hash : string;
  b_created_at : Z;
  b_updated_at : Z
}.

(** submissions, keyed by the on-chain submission_id.
    severity: 0=None, 1=Low, 2=Medium, 3=High; status as for bounties. *)
Record submission_row := {
  s_id : Z;
  s_bounty_id : Z;
  s_hunter_id : Z;
  s_severity : Z;
  s_status : Z;
  s_reward_amount : Z;
  s_submitted_at : Z;
  s_is_paid : bool;
  s_block_number : Z;
  s_tx_hash : string;
  s_paid_at : option Z;
  s_updated_at : Z
}.

(** indexer_state, keyed by (contract_address, network). *)
Record indexer_row := {
  last_block : Z;
  last_updated : Z
}.

Record db := {
  users : gmap string user_row;
  hunter_stats : gmap string stats_row;
  bounties : gmap Z bounty_row;
  submissions : gmap Z submission_row;
  indexer_state : gmap (string * string) indexer_row;
  users_id_seq : Z;
  bounties_id_seq : Z;
  submissions_id_seq : Z
}.

Definition empty_db : db :=
  {| users := ∅; hunter_stats := ∅; bounties := ∅; submissions := ∅;
     indexer_state := ∅;
     users_id_seq := 1; bounties_id_seq := 1; submissions_id_seq := 1 |}.

(** The rows of a database, without the sequence counters. *)
Definition rows (s : db) :=
  (users s, hunter_stats s, bounties s, submissions s, indexer_state s).

Definition set_users (f : gmap string user_row -> gmap string user_row) (s : db) : db :=
  {| users := f (users s); hunter_stats := hunter_stats s; bounties := bounties s;
     submissions := submissions s; indexer_state := indexer_state s;
     users_id_seq := users_id_seq s; bounties_id_seq := bounties_id_seq s;
     submissions_id_seq := submissions_id_seq s |}.

Definition set_hunter_stats (f : gmap string stats_row -> gmap string stats_row) (s : db) : db :=
  {| users := users s; hunter_stats := f (hunter_stats s); bounties := bounties s;
     submissions := submissions s; indexer_state := indexer_state s;
     users_id_seq := users_id_seq s; bounties_id_seq := bounties_id_seq s;
     submissions_id_seq := submissions_id_seq s |}.

Definition set_bounties (f : gmap Z bounty_row -> gmap Z bounty_row) (s : db) : db :=
  {| users := users s; hunter_stats := hunter_stats s; bounties := f (bounties s);
     submissions := submissions s; indexer_state := indexer_state s;
     users_id_seq := users_id_seq s; bounties_id_seq := bounties_id_seq s;
     submissions_id_seq := submissions_id_seq s |}.

Definition set_submissions (f : gmap Z submission_row -> gmap Z submission_row) (s : db) : db :=
  {| users := users s; hunter_stats := hunter_stats s; bounties := bounties s;
     submissions := f (submissions s); indexer_state := indexer_state s;
     users_id_seq := users_id_seq s; bounties_id_seq := bounties_id_seq s;
     submissions_id_seq := submissions_id_seq s |}.

Definition set_indexer_state
    (f : gmap (string * string) indexer_row -> gmap (string * string) indexer_row)
    (s : db) : db :=
  {| users := users s; hunter_stats := hunter_stats s; bounties := bounties s;
     submissions := submissions s; indexer_state := f (indexer_state s);
     users_id_seq := users_id_seq s; bounties_id_seq := bounties_id_seq s;
     submissions_id_seq := submissions_id_seq s |}.

(** [nextval] of the three sequences. *)
Definition next_users_id (s : db) : db :=
  {| users := users s; hunter_stats := hunter_stats s; bounties := bounties s;
     submissions := submissions s; indexer_state := indexer_state s;
     users_id_seq := users_id_seq s + 1; bounties_id_seq := bounties_id_seq s;
     submissions_id_seq := submissions_id_seq s |}.

Definition next_bounties_id (s : db) : db :=
  {| users := users s; hunter_stats := hunter_stats s; bounties := bounties s;
     submissions := submissions s; indexer_state := indexer_state s;
     users_id_seq := users_id_seq s; bounties_id_seq := bounties_id_seq s + 1;
     submissions_id_seq := submissions_id_seq s |}.

Definition next_submissions_id (s : db) : db :=
  {| users := users s; hunter_stats := hunter_stats s; bounties := bounties s;
     submissions := submissions s; indexer_state := indexer_state s;
     users_id_seq := users_id_seq s; bounties_id_seq := bounties_id_seq s;
     submissions_id_seq := submissions_id_seq s + 1 |}.

(** ** Statements and programs *)

(** What a caller can catch: the rejections of PostgreSQL, by SQLSTATE
    class, and the argument error of ethers. *)
Inductive error :=
| UniqueViolation (constraint : string)  (* 23505 *)
| NotNullViolation (column : string)     (* 23502 *)
| InvalidDatetime                        (* 22007: an Invalid Date as a TIMESTAMP *)
| InvalidBigint                          (* 22P02: NaN as a BIGINT *)
| InvalidBlockTag.                       (* ethers: invalid blockTag *)

Inductive outcome (A : Type) :=
| Done (a : A)
| Thrown (e : error).
Arguments Done {A} a.
Arguments Thrown {A} e.

(** A statement runs at the database clock [NOW()] and either returns its
    result or rejects. *)
Definition statement (R : Type) := Z -> db -> outcome R * db.

(** A program returns, awaits a statement, or throws without having asked
    the database anything. *)
Inductive prog (A : Type) : Type :=
| Ret (a : A)
| Query {R : Type} (q : statement R) (k : R -> prog A)
| Throw (e : error).
Arguments Ret {A} a.
Arguments Query {A R} q k.
Arguments Throw {A} e.

Fixpoint bind {A B} (m : prog A) (f : A -> prog B) : prog B :=
  match m with
  | Ret a => f a
  | Query q k => Query q (fun r => bind (k r) f)
  | Throw e => Throw e
  end.

Definition query {R} (q : statement R) : prog R := Query q Ret.

Declare Scope prog_scope.
Delimit Scope prog_scope with prog.
Notation "x <- m ;; k" := (bind m (fun x => k))
  (at level 100, m at next level, right associativity) : prog_scope.
Notation "m ;; k" := (bind m (fun _ => k))
  (at level 100, right associativity) : prog_scope.
Local Open Scope prog_scope.

(** [for (const x of xs) { await body(x); }] *)
Fixpoint forEach {X} (xs : list X) (body : X -> prog unit) : prog unit :=
  match xs with
  | [] => Ret tt
  | x :: rest => body x ;; forEach rest body
  end.

(** Run to completion: a rejected statement propagates as an exception,
    since no handler catches. *)
Fixpoint exec {A} (now : Z) (p : prog A) (s : db) : outcome A * db :=
  match p with
  | Ret a => (Done a, s)
  | Query q k =>
      match q now s with
      | (Done r, s') => exec now (k r) s'
      | (Thrown e, s') => (Thrown e, s')
      end
  | Throw e => (Thrown e, s)
  end.

(** Run until the process dies: at most [n] statements are issued.  [None]
    means the process died before the program returned. *)
Fixpoint exec_until {A} (n : nat) (now : Z) (p : prog A) (s : db) {struct p}
  : option (outcome A) * db :=
  match p with
  | Ret a => (Some (Done a), s)
  | Query q k =>
      match n with
      | O => (None, s)
      | S n' =>
          match q now s with
          | (Done r, s') => exec_until n' now (k r) s'
          | (Thrown e, s') => (Some (Thrown e), s')
          end
      end
  | Throw e => (Some (Thrown e), s)
  end.

(** ** The chain and the configuration *)

(** [event.args], decoded per event type. *)
Inductive event_args :=
| BountyCreated (bountyId : Z) (company : string) (totalReward : Z)
| SubmissionCreated (submissionId bountyId : Z) (hunter : string)
| SubmissionValidated (submissionId severity : Z) (isValid : bool)
| RewardPaid (submissionId : Z) (hunter : string) (amount : Z)
| BountyCompleted (bountyId : Z).

(** The fields of an event object that the indexer reads and that ethers
    sets.  The source also reads [event.blockTimestamp], a property that
    the event objects of ethers do not have. *)
Record event := {
  args : event_args;
  blockNumber : Z;
  logIndex : Z;
  transactionHash : string
}.

Inductive event_name :=
| EBountyCreated | ESubmissionCreated | ESubmissionValidated | ERewardPaid
| EBountyCompleted.

Definition name_of (a : event_args) : event_name :=
  match a with
  | BountyCreated _ _ _ => EBountyCreated
  | SubmissionCreated _ _ _ => ESubmissionCreated
  | SubmissionValidated _ _ _ => ESubmissionValidated
  | RewardPaid _ _ _ => ERewardPaid
  | BountyCompleted _ => EBountyCompleted
  end.

Definition event_name_eqb (a b : event_name) : bool :=
  match a, b with
  | EBountyCreated, EBountyCreated
  | ESubmissionCreated, ESubmissionCreated
  | ESubmissionValidated, ESubmissionValidated
  | ERewardPaid, ERewardPaid
  | EBountyCompleted, EBountyCompleted => true
  | _, _ => false
  end.

(** What [bountyManager.bounties(id)] and [bountyManager.submissions(id)]
    return. *)
Record BountyData := {
  bd_targetContract : string;
  bd_totalReward : Z;
  bd_remainingReward : Z;
  bd_lockAmount : Z;
  bd_status : Z;
  bd_deadline : Z;
  bd_isActive : bool;
  bd_paymentToken : string
}.

Record SubmissionData := {
  sd_severity : Z;
  sd_status : Z;
  sd_rewardAmount : Z;
  sd_submittedAt : Z;
  sd_isPaid : bool
}.

(** The BountyManager contract as the indexer sees it: its two public
    mappings, its event log and the head that [provider.getBlockNumber()]
    returns the one time [indexHistoricalEvents] asks for it. *)
Record contract := {
  chain_bounties : Z -> BountyData;
  chain_submissions : Z -> SubmissionData;
  chain_log : list event;
  getBlockNumber : Z
}.

(** [bountyManager.queryFilter(filters.Name(), fromBlock, toBlock)]: the
    events of one type in the block range, in log order. *)
Definition in_range (fromBlock toBlock : Z) (e : event) : bool :=
  (fromBlock <=? blockNumber e) && (blockNumber e <=? toBlock).

Definition queryFilter (c : contract) (name : event_name) (fromBlock toBlock : Z)
  : list event :=
  List.filter
    (fun e => event_name_eqb (name_of (args e)) name && in_range fromBlock toBlock e)
    (chain_log c).

(** [process.env]; the two numeric variables are given as [parseInt] reads
    them, [None] standing for NaN. *)
Record config := {
  BOUNTY_MANAGER_ADDRESS : string;
  network : string;
  INDEXER_START_BLOCK : option Z;
  INDEXER_BATCH_SIZE : option Z
}.

(** [parseInt(x) || d]: NaN and 0 are falsy. *)
Definition or_default (parsed : option Z) (d : Z) : Z :=
  match parsed with
  | Some n => if n =? 0 then d else n
  | None => d
  end.

(** ** The SQL statements of indexer.js *)

(** SELECT id FROM users WHERE wallet_address = $1 *)
Definition select_user_id (wallet : string) : statement (option Z) :=
  fun _ s => (Done (u_id <$> users s !! wallet), s).

(** INSERT INTO users (wallet_address, role) VALUES ($1, $2) RETURNING id *)
Definition insert_user (wallet role : string) : statement Z :=
  fun _ s =>
    match users s !! wallet with
    | Some _ => (Thrown (UniqueViolation "users_wallet_address_key"), next_users_id s)
    | None =>
        (Done (users_id_seq s),
         set_users (insert wallet {| u_id := users_id_seq s; u_role := role |})
           (next_users_id s))
    end.

(** INSERT INTO hunter_stats (wallet_address) VALUES ($1) *)
Definition insert_hunter_stats (wallet : string) : statement unit :=
  fun _ s =>
    match hunter_stats s !! wallet with
    | Some _ => (Thrown (UniqueViolation "hunter_stats_wallet_address_key"), s)
    | None =>
        (Done tt,
         set_hunter_stats
           (insert wallet {| total_earned := 0; successful_submissions := 0;
                             total_submissions := 0 |}) s)
    end.

(** SELECT id FROM bounties WHERE bounty_id = $1 *)
Definition select_bounty_id (bounty_id : Z) : statement (option Z) :=
  fun _ s => (Done (b_id <$> bounties s !! bounty_id), s).

(** INSERT INTO bounties (bounty_id, company_id, target_contract_address,
      total_reward, remaining_reward, lock_amount, status, deadline,
      is_active, payment_token, block_number, tx_hash, created_at)
    VALUES ($1..$13)
    ON CONFLICT (bounty_id) DO UPDATE SET total_reward, remaining_reward,
    status, is_active = EXCLUDED.*, updated_at = NOW().

    PostgreSQL accepts no row from this statement.  An Invalid Date bound
    to [deadline] or [created_at] is refused when the parameters are read.
    Otherwise the row to insert is formed, which draws the id from the
    sequence, and is checked before the conflict is looked for: the
    statement names no title, and schema.sql declares title
    VARCHAR(255) NOT NULL without a DEFAULT.  This holds for a bounty_id that
    has a row as for one that has none. *)
Definition upsert_bounty (bounty_id company_id : Z) (target : string)
    (total remaining lock status : Z) (deadline : option Z) (is_active : bool)
    (payment_token : string) (block_number : Z) (tx_hash : string)
    (created_at : option Z) : statement unit :=
  fun _ s =>
    match deadline, created_at with
    | Some _, Some _ => (Thrown (NotNullViolation "title"), next_bounties_id s)
    | _, _ => (Thrown InvalidDatetime, s)
    end.

(** INSERT INTO submissions (submission_id, bounty_id, hunter_id, severity,
      status, reward_amount, submitted_at, is_paid, block_number, tx_hash)
    VALUES ($1..$10)
    ON CONFLICT (submission_id) DO UPDATE SET severity, status,
    reward_amount, is_paid = EXCLUDED.*, updated_at = NOW().

    As for bounties: the statement names no title, which schema.sql declares
    NOT NULL without a DEFAULT for submissions too, so no row is accepted,
    whether the submission_id has a row or not. *)
Definition upsert_submission (submission_id bounty_db_id hunter_id : Z)
    (severity status reward_amount : Z) (submitted_at : option Z) (is_paid : bool)
    (block_number : Z) (tx_hash : string) : statement unit :=
  fun _ s =>
    match submitted_at with
    | Some _ => (Thrown (NotNullViolation "title"), next_submissions_id s)
    | None => (Thrown InvalidDatetime, s)
    end.

(** [rowCount] of an UPDATE ... WHERE key = k. *)
Definition rowCount {K V} `{Countable K} (m : gmap K V) (k : K) : nat :=
  match m !! k with Some _ => 1%nat | None => 0%nat end.

(** UPDATE hunter_stats SET total_submissions = total_submissions + 1
    WHERE wallet_address = $1 *)
Definition bump_total_submissions (r : stats_row) : stats_row :=
  {| total_earned := total_earned r;
     successful_submissions := successful_submissions r;
     total_submissions := total_submissions r + 1 |}.

Definition increment_total_submissions (wallet : string) : statement nat :=
  fun _ s =>
    (Done (rowCount (hunter_stats s) wallet),
     set_hunter_stats (alter bump_total_submissions wallet) s).

(** UPDATE submissions SET severity = $1, status = $2, updated_at = NOW()
    WHERE submission_id = $3 *)
Definition set_validation (severity status now : Z) (r : submission_row)
  : submission_row :=
  {| s_id := s_id r; s_bounty_id := s_bounty_id r; s_hunter_id := s_hunter_id r;
     s_severity := severity; s_status := status;
     s_reward_amount := s_reward_amount r; s_submitted_at := s_submitted_at r;
     s_is_paid := s_is_paid r; s_block_number := s_block_number r;
     s_tx_hash := s_tx_hash r; s_paid_at := s_paid_at r; s_updated_at := now |}.

Definition update_submission_validated (severity status submission_id : Z)
  : statement nat :=
  fun now s =>
    (Done (rowCount (submissions s) submission_id),
     set_submissions (alter (set_validation severity status now) submission_id) s).

(** UPDATE submissions SET is_paid = TRUE, reward_amount = $1, paid_at = NOW()
    WHERE submission_id = $2; the BEFORE UPDATE trigger of schema.sql sets
    updated_at = NOW(). *)
Definition set_paid (amount now : Z) (r : submission_row) : submission_row :=
  {| s_id := s_id r; s_bounty_id := s_bounty_id r; s_hunter_id := s_hunter_id r;
     s_severity := s_severity r; s_status := s_status r;
     s_reward_amount := amount; s_submitted_at := s_submitted_at r;
     s_is_paid := true; s_block_number := s_block_number r;
     s_tx_hash := s_tx_hash r; s_paid_at := Some now; s_updated_at := now |}.

Definition update_submission_paid (amount submission_id : Z) : statement nat :=
  fun now s =>
    (Done (rowCount (submissions s) submission_id),
     set_submissions (alter (set_paid amount now) submission_id) s).

(** UPDATE hunter_stats SET total_earned = total_earned + $1,
    successful_submissions = successful_submissions + 1
    WHERE wallet_address = $2 *)
Definition add_earned (amount : Z) (r : stats_row) : stats_row :=
  {| total_earned := total_earned r + amount;
     successful_submissions := successful_submissions r + 1;
     total_submissions := total_submissions r |}.

Definition increment_earned (amount : Z) (wallet : string) : statement nat :=
  fun _ s =>
    (Done (rowCount (hunter_stats s) wallet),
     set_hunter_stats (alter (add_earned amount) wallet) s).

(** UPDATE bounties SET status = 4, is_active = FALSE, updated_at = NOW()
    WHERE bounty_id = $1 *)
Definition set_completed (now : Z) (r : bounty_row) : bounty_row :=
  {| b_id := b_id r; b_company_id := b_company_id r;
     b_target_contract_address := b_target_contract_address r;
     b_total_reward := b_total_reward r;
     b_remaining_reward := b_remaining_reward r;
     b_lock_amount := b_lock_amount r; b_status := 4;
     b_deadline := b_deadline r; b_is_active := false;
     b_payment_token := b_payment_token r;
     b_block_number := b_block_number r; b_tx_hash := b_tx_hash r;
     b_created_at := b_created_at r; b_updated_at := now |}.

Definition update_bounty_completed (bounty_id : Z) : statement nat :=
  fun now s =>
    (Done (rowCount (bounties s) bounty_id),
     set_bounties (alter (set_completed now) bounty_id) s).

(** INSERT INTO indexer_state (contract_address, network, last_block)
    VALUES ($1, $2, $3)
    ON CONFLICT (contract_address, network) DO UPDATE SET last_updated = NOW()
    RETURNING * *)
Definition upsert_indexer_state (contract_address net : string) (start : Z)
  : statement indexer_row :=
  fun now s =>
    let row :=
      match indexer_state s !! (contract_address, net) with
      | None => {| last_block := start; last_updated := now |}
      | Some old => {| last_block := last_block old; last_updated := now |}
      end in
    (Done row, set_indexer_state (insert (contract_address, net) row) s).

(** SELECT last_block FROM indexer_state
    WHERE contract_address = $1 AND network = $2 *)
Definition select_last_block (contract_address net : string)
  : statement (option Z) :=
  fun _ s => (Done (last_block <$> indexer_state s !! (contract_address, net)), s).

(** UPDATE indexer_state SET last_block = $1, last_updated = NOW()
    WHERE contract_address = $2 AND network = $3 *)
Definition update_last_block (block : Z) (contract_address net : string)
  : statement nat :=
  fun now s =>
    (Done (rowCount (indexer_state s) (contract_address, net)),
     set_indexer_state
       (alter (fun _ => {| last_block := block; last_updated := now |})
          (contract_address, net)) s).

(** A statement that PostgreSQL refuses when it reads its parameters. *)
Definition refused {R} (e : error) : statement R := fun _ s => (Thrown e, s).

(** What PostgreSQL reads from a JavaScript value bound to a BIGINT
    parameter: node-postgres sends the text of the value. *)
Definition bigint_param (v : js_value) : option Z :=
  match v with
  | JNumber n => Some n
  | JString s => Z.of_int <$> NilZero.int_of_string s
  | NaN => None
  end.

(** ** class BlockchainIndexer *)

Section Indexer.

Variable bountyManager : contract.
Variable env : config.

Definition contract_address : string := toLowerCase (BOUNTY_MANAGER_ADDRESS env).

(** *** Checkpoint *)

Definition initializeState : prog unit :=
  _ <- query (upsert_indexer_state contract_address (network env)
                (or_default (INDEXER_START_BLOCK env) 0)) ;;
  Ret tt.

(** [result.rows[0]?.last_block || parseInt(INDEXER_START_BLOCK) || 0].
    last_block is a BIGINT: node-postgres puts it in the row as the string
    of its decimal digits, and the sources register no type parser (the
    controllers [parseInt] the bigint counts they select).  A string of
    digits is truthy, ["0"] included, so the row's value is returned as it
    is; without a row the result is the number of the environment. *)
Definition getLastIndexedBlock : prog js_value :=
  result <- query (select_last_block contract_address (network env)) ;;
  Ret (match result with
       | Some stored => JString (decimal stored)
       | None => JNumber (or_default (INDEXER_START_BLOCK env) 0)
       end).

Definition updateLastIndexedBlock (blockNumber : js_value) : prog unit :=
  match bigint_param blockNumber with
  | Some block =>
      _ <- query (update_last_block block contract_address (network env)) ;;
      Ret tt
  | None =>
      _ <- query (refused (R := nat) InvalidBigint) ;;
      Ret tt
  end.

(** *** Event handlers

    Each handler takes the fields it destructures from [event.args] and the
    event itself.  The calls to [cache.deletePattern] touch no table and are
    left out. *)

Definition handleBountyCreated (bountyId : Z) (company : string)
    (totalReward : Z) (ev : event) : prog unit :=
  let bountyData := chain_bounties bountyManager bountyId in
  companyResult <- query (select_user_id (toLowerCase company)) ;;
  companyId <- match companyResult with
               | None => query (insert_user (toLowerCase company) "company")
               | Some id => Ret id
               end ;;
  _ <- query (upsert_bounty bountyId companyId
                (toLowerCase (bd_targetContract bountyData))
                (bd_totalReward bountyData)
                (bd_remainingReward bountyData)
                (bd_lockAmount bountyData)
                (bd_status bountyData)
                (js_date (bd_deadline bountyData * 1000))
                (bd_isActive bountyData)
                (toLowerCase (bd_paymentToken bountyData))
                (blockNumber ev)
                (transactionHash ev)
                None  (* new Date(event.blockTimestamp * 1000), of undefined *)
         ) ;;
  Ret tt.

Definition handleSubmissionCreated (submissionId bountyId : Z) (hunter : string)
    (ev : event) : prog unit :=
  let submissionData := chain_submissions bountyManager submissionId in
  hunterResult <- query (select_user_id (toLowerCase hunter)) ;;
  hunterId <- match hunterResult with
              | None =>
                  id <- query (insert_user (toLowerCase hunter) "hunter") ;;
                  _ <- query (insert_hunter_stats (toLowerCase hunter)) ;;
                  Ret id
              | Some id => Ret id
              end ;;
  bountyResult <- query (select_bounty_id bountyId) ;;
  match bountyResult with
  | None => Ret tt  (* console.error('Bounty not found in database:'); return; *)
  | Some bountyDbId =>
      _ <- query (upsert_submission submissionId bountyDbId hunterId
                    (sd_severity submissionData)
                    (sd_status submissionData)
                    (sd_rewardAmount submissionData)
                    (js_date (sd_submittedAt submissionData * 1000))
                    (sd_isPaid submissionData)
                    (blockNumber ev)
                    (transactionHash ev)) ;;
      _ <- query (increment_total_submissions (toLowerCase hunter)) ;;
      Ret tt
  end.

Definition handleSubmissionValidated (submissionId severity : Z) (isValid : bool)
    (ev : event) : prog unit :=
  _ <- query (update_submission_validated severity (if isValid then 2 else 3)
                submissionId) ;;
  Ret tt.

Definition handleRewardPaid (submissionId : Z) (hunter : string) (amount : Z)
    (ev : event) : prog unit :=
  _ <- query (update_submission_paid amount submissionId) ;;
  _ <- query (increment_earned amount (toLowerCase hunter)) ;;
  Ret tt.

Definition handleBountyCompleted (bountyId : Z) (ev : event) : prog unit :=
  _ <- query (update_bounty_completed bountyId) ;;
  Ret tt.

(** The handler an event reaches: [indexXEvents] passes the events of filter
    X to [handleX], and [startRealtimeIndexing] registers [handleX] as the
    listener of X. *)
Definition handleEvent (ev : event) : prog unit :=
  match args ev with
  | BountyCreated bountyId company totalReward =>
      handleBountyCreated bountyId company totalReward ev
  | SubmissionCreated submissionId bountyId hunter =>
      handleSubmissionCreated submissionId bountyId hunter ev
  | SubmissionValidated submissionId severity isValid =>
      handleSubmissionValidated submissionId severity isValid ev
  | RewardPaid submissionId hunter amount =>
      handleRewardPaid submissionId hunter amount ev
  | BountyCompleted bountyId =>
      handleBountyCompleted bountyId ev
  end.

(** *** Historical indexing *)

(** [await this.bountyManager.queryFilter(filter, fromBlock, toBlock)].
    ethers turns each bound into a block tag before it asks the node: a
    number is one; a string is one only if it is a tag name (latest,
    earliest, ...) or 0x-hexadecimal, which the strings of digits of this
    program are not; anything else throws. *)
Definition awaitQueryFilter (name : event_name) (fromBlock toBlock : js_value)
  : prog (list event) :=
  match fromBlock, toBlock with
  | JNumber f, JNumber t => Ret (queryFilter bountyManager name f t)
  | _, _ => Throw InvalidBlockTag
  end.

Definition indexBountyCreatedEvents (fromBlock toBlock : js_value) : prog unit :=
  events <- awaitQueryFilter EBountyCreated fromBlock toBlock ;;
  forEach events handleEvent.

Definition indexSubmissionCreatedEvents (fromBlock toBlock : js_value) : prog unit :=
  events <- awaitQueryFilter ESubmissionCreated fromBlock toBlock ;;
  forEach events handleEvent.

Definition indexSubmissionValidatedEvents (fromBlock toBlock : js_value) : prog unit :=
  events <- awaitQueryFilter ESubmissionValidated fromBlock toBlock ;;
  forEach events handleEvent.

Definition indexRewardPaidEvents (fromBlock toBlock : js_value) : prog unit :=
  events <- awaitQueryFilter ERewardPaid fromBlock toBlock ;;
  forEach events handleEvent.

Definition indexBountyCompletedEvents (fromBlock toBlock : js_value) : prog unit :=
  events <- awaitQueryFilter EBountyCompleted fromBlock toBlock ;;
  forEach events handleEvent.

(** The body of the loop: one batch. *)
Definition indexBatch (fromBlock toBlock : js_value) : prog unit :=
  indexBountyCreatedEvents fromBlock toBlock ;;
  indexSubmissionCreatedEvents fromBlock toBlock ;;
  indexSubmissionValidatedEvents fromBlock toBlock ;;
  indexRewardPaidEvents fromBlock toBlock ;;
  indexBountyCompletedEvents fromBlock toBlock ;;
  updateLastIndexedBlock toBlock.

(** The values [i] takes in
    [for (let i = lastBlock; i <= currentBlock; i += batchSize)].
    The body does not assign [i], [currentBlock] or [batchSize].  Where the
    source loop does not end, the list is cut at [fuel] entries. *)
Fixpoint loop_values (fuel : nat) (i : js_value) (currentBlock batchSize : Z)
  : list js_value :=
  match fuel with
  | O => []
  | S fuel' =>
      if js_le i currentBlock
      then i :: loop_values fuel' (js_plus i batchSize) currentBlock batchSize
      else []
  end.

(** [fromBlock] and [toBlock] of the iteration at [i]:
    [i] and [Math.min(i + batchSize - 1, currentBlock)]. *)
Definition js_batch_range (i : js_value) (currentBlock batchSize : Z)
  : js_value * js_value :=
  (i, Math_min (js_minus (js_plus i batchSize) 1) currentBlock).

(** The block ranges of the loop, with one unit of fuel per block from
    [lastBlock] to [currentBlock]. *)
Definition js_batch_ranges (lastBlock : js_value) (currentBlock batchSize : Z)
  : list (js_value * js_value) :=
  map (fun i => js_batch_range i currentBlock batchSize)
    (loop_values
       (match ToNumber lastBlock with
        | JNumber n => Z.to_nat (currentBlock - n + 1)
        | _ => O
        end)
       lastBlock currentBlock batchSize).

(** The same loop when [lastBlock] is a number: [i] stays a number. *)
Fixpoint loop_indices (fuel : nat) (i currentBlock batchSize : Z) : list Z :=
  match fuel with
  | O => []
  | S fuel' =>
      if i <=? currentBlock
      then i :: loop_indices fuel' (i + batchSize) currentBlock batchSize
      else []
  end.

Definition batch_range (i currentBlock batchSize : Z) : Z * Z :=
  (i, Z.min (i + batchSize - 1) currentBlock).

(** One entry per block from [lastBlock] to [currentBlock] is enough fuel
    for any [batchSize >= 1] ([loop_indices_complete] below). *)
Definition batch_ranges (lastBlock currentBlock batchSize : Z) : list (Z * Z) :=
  map (fun i => batch_range i currentBlock batchSize)
    (loop_indices (Z.to_nat (currentBlock - lastBlock + 1))
       lastBlock currentBlock batchSize).

(** [parseInt(process.env.INDEXER_BATCH_SIZE) || 1000] *)
Definition batchSize : Z := or_default (INDEXER_BATCH_SIZE env) 1000.

Definition indexHistoricalEvents : prog unit :=
  lastBlock <- getLastIndexedBlock ;;
  let currentBlock := getBlockNumber bountyManager in
  if js_ge lastBlock currentBlock
  then Ret tt  (* Already up to date *)
  else forEach (js_batch_ranges lastBlock currentBlock batchSize)
         (fun r => indexBatch (fst r) (snd r)).

(** The events one batch applies, in the order it applies them. *)
Definition batch_events (fromBlock toBlock : Z) : list event :=
  queryFilter bountyManager EBountyCreated fromBlock toBlock ++
  queryFilter bountyManager ESubmissionCreated fromBlock toBlock ++
  queryFilter bountyManager ESubmissionValidated fromBlock toBlock ++
  queryFilter bountyManager ERewardPaid fromBlock toBlock ++
  queryFilter bountyManager EBountyCompleted fromBlock toBlock.

(** *** Real-time indexing

    [startRealtimeIndexing] registers one async listener per event type.
    ethers calls a listener when its log arrives and does not await the
    promise it returns: the handlers of logs that arrive together are in
    flight together, each waiting for the statement it awaits, and the
    database runs those statements one at a time in the order it receives
    them.  A [tick] is one such moment.  A listener whose statement is
    rejected is left as thrown, and the other listeners go on; where the
    rejected promise ends the process, the ticks end there. *)
Inductive tick :=
| Arrives (ev : event)        (* a log arrives and its listener starts *)
| Runs (i : nat) (now : Z).   (* the statement that listener [i] awaits runs *)

Definition onEvent (ev : event) : prog unit := handleEvent ev.

(** The database and the listeners started so far, in order of arrival: what
    is left of each to run. *)
Definition realtime_step (st : db * list (prog unit)) (t : tick)
  : db * list (prog unit) :=
  match t with
  | Arrives ev => (fst st, (snd st ++ [onEvent ev])%list)
  | Runs i now =>
      match snd st !! i with
      | Some (Query q k) =>
          match q now (fst st) with
          | (Done r, s') => (s', <[i := k r]> (snd st))
          | (Thrown e, s') => (s', <[i := Throw e]> (snd st))
          end
      | _ => st
      end
  end.

Definition realtime_run (ticks : list tick) (s : db) : db * list (prog unit) :=
  fold_left realtime_step ticks (s, []).

Definition realtime (ticks : list tick) (s : db) : db :=
  fst (realtime_run ticks s).

End Indexer.

(** ** Auxiliary definitions *)

(** The database after one delivery of an event at clock [now]. *)
Definition deliver (bm : contract) (now : Z) (ev : event) (s : db) : db :=
  snd (exec now (handleEvent bm ev) s).

(** The value [getLastIndexedBlock] returns on database [s]. *)
Definition lastIndexedBlock (cfg : config) (s : db) : js_value :=
  match indexer_state s !! (contract_address cfg, network cfg) with
  | Some row => JString (decimal (last_block row))
  | None => JNumber (or_default (INDEXER_START_BLOCK cfg) 0)
  end.

(** The block the checkpoint stands for: the stored last_block, or the start
    block of the environment when there is no row. *)
Definition checkpointBlock (cfg : config) (s : db) : Z :=
  match indexer_state s !! (contract_address cfg, network cfg) with
  | Some row => last_block row
  | None => or_default (INDEXER_START_BLOCK cfg) 0
  end.

(** Events that arrive one after the other, each when the listener of the
    one before has finished: listener [i] is given the six statements a
    handler issues at most, all at the clock of its arrival. *)
Fixpoint in_turn_from (i : nat) (arrivals : list (Z * event)) : list tick :=
  match arrivals with
  | [] => []
  | a :: rest =>
      (Arrives (snd a) :: replicate 6 (Runs i (fst a)) ++ in_turn_from (S i) rest)%list
  end.

Definition in_turn (arrivals : list (Z * event)) : list tick :=
  in_turn_from 0 arrivals.

(** A listener that has returned or thrown. *)
Definition settled {A} (p : prog A) : Prop :=
  match p with
  | Query _ _ => False
  | _ => True
  end.

(** What [updateLastIndexedBlock] does to indexer_state. *)
Definition checkpoint_at (cfg : config) (block now : Z)
    (m : gmap (string * string) indexer_row) : gmap (string * string) indexer_row :=
  alter (fun _ => {| last_block := block; last_updated := now |})
    (contract_address cfg, network cfg) m.

(** The users row a handler finds or creates. *)
Definition with_user (wallet role : string) (s : db) : db :=
  match users s !! wallet with
  | Some _ => s
  | None =>
      set_users (insert wallet {| u_id := users_id_seq s; u_role := role |})
        (next_users_id s)
  end.

(** A new hunter: the users row and the hunter_stats row, created together by
    [handleSubmissionCreated]. *)
Definition with_hunter (wallet : string) (s : db) : db :=
  set_hunter_stats
    (insert wallet {| total_earned := 0; successful_submissions := 0;
                      total_submissions := 0 |})
    (set_users (insert wallet {| u_id := users_id_seq s; u_role := "hunter" |})
       (next_users_id s)).

(** A submissions row and a bounties row with updated_at set anew, as the
    BEFORE UPDATE trigger leaves a row that an UPDATE does not otherwise
    change; and a submissions row with paid_at set anew as well. *)
Definition touch_submission (now : Z) (r : submission_row) : submission_row :=
  {| s_id := s_id r; s_bounty_id := s_bounty_id r; s_hunter_id := s_hunter_id r;
     s_severity := s_severity r; s_status := s_status r;
     s_reward_amount := s_reward_amount r; s_submitted_at := s_submitted_at r;
     s_is_paid := s_is_paid r; s_block_number := s_block_number r;
     s_tx_hash := s_tx_hash r; s_paid_at := s_paid_at r; s_updated_at := now |}.

Definition touch_bounty (now : Z) (r : bounty_row) : bounty_row :=
  {| b_id := b_id r; b_company_id := b_company_id r;
     b_target_contract_address := b_target_contract_address r;
     b_total_reward := b_total_reward r;
     b_remaining_reward := b_remaining_reward r;
     b_lock_amount := b_lock_amount r; b_status := b_status r;
     b_deadline := b_deadline r; b_is_active := b_is_active r;
     b_payment_token := b_payment_token r;
     b_block_number := b_block_number r; b_tx_hash := b_tx_hash r;
     b_created_at := b_created_at r; b_updated_at := now |}.

Definition repay (now : Z) (r : submission_row) : submission_row :=
  {| s_id := s_id r; s_bounty_id := s_bounty_id r; s_hunter_id := s_hunter_id r;
     s_severity := s_severity r; s_status := s_status r;
     s_reward_amount := s_reward_amount r; s_submitted_at := s_submitted_at r;
     s_is_paid := s_is_paid r; s_block_number := s_block_number r;
     s_tx_hash := s_tx_hash r; s_paid_at := Some now; s_updated_at := now |}.

(** A statement that does not touch indexer_state, and a program made of
    such statements. *)
Definition frames_checkpoint {R} (q : statement R) : Prop :=
  forall now s, indexer_state (snd (q now s)) = indexer_state s.

Fixpoint leaves_checkpoint {A} (p : prog A) : Prop :=
  match p with
  | Ret _ | Throw _ => True
  | Query q k => frames_checkpoint q /\ forall r, leaves_checkpoint (k r)
  end.

(** A program that ends in [upd], if it gets there, and does not touch
    indexer_state before. *)
Inductive checkpoint_last (upd : prog unit) : prog unit -> Prop :=
| checkpoint_here : checkpoint_last upd upd
| checkpoint_later {R} (q : statement R) (k : R -> prog unit) :
    frames_checkpoint q ->
    (forall r, checkpoint_last upd (k r)) ->
    checkpoint_last upd (Query q k)
| checkpoint_thrown (e : error) : checkpoint_last upd (Throw e).

(** The number of statements a complete run issues. *)
Fixpoint statements_issued {A} (now : Z) (p : prog A) (s : db) : nat :=
  match p with
  | Ret _ | Throw _ => O
  | Query q k =>
      match q now s with
      | (Done r, s') => S (statements_issued now (k r) s')
      | (Thrown _, _) => 1%nat
      end
  end.

(** The order of the chain log: by block number, then by log index. *)
Definition event_key_lt (e1 e2 : event) : Prop :=
  blockNumber e1 < blockNumber e2 \/
  (blockNumber e1 = blockNumber e2 /\ logIndex e1 < logIndex e2).

(** The position of an event type in the body of the loop. *)
Definition event_rank (n : event_name) : nat :=
  match n with
  | EBountyCreated => 0
  | ESubmissionCreated => 1
  | ESubmissionValidated => 2
  | ERewardPaid => 3
  | EBountyCompleted => 4
  end.

(** The order in which a batch applies its events: by event type, and by
    chain order within one type. *)
Definition applied_before (e1 e2 : event) : Prop :=
  (event_rank (name_of (args e1)) < event_rank (name_of (args e2)))%nat \/
  (name_of (args e1) = name_of (args e2) /\ event_key_lt e1 e2).

(** ** Concrete inputs

    The lifecycle of section 8 of the specification: company 0xAA opens
    bounty 7, hunter 0xBB files submission 3, which is validated as High and
    then paid 47500; the company then opens bounty 8. *)

Definition cfg0 : config :=
  {| BOUNTY_MANAGER_ADDRESS := "0xEE"; network := "sepolia";
     INDEXER_START_BLOCK := Some 100; INDEXER_BATCH_SIZE := Some 10 |}.

Definition key0 : string * string := ("0xee", "sepolia").

Definition mk_event (a : event_args) (block index : Z) : event :=
  {| args := a; blockNumber := block; logIndex := index;
     transactionHash := "0x01" |}.

Definition ev_bounty7 : event := mk_event (BountyCreated 7 "0xAA" 50000) 101 0.
Definition ev_submission3 : event := mk_event (SubmissionCreated 3 7 "0xBB") 102 0.
Definition ev_validated3 : event := mk_event (SubmissionValidated 3 3 true) 103 0.
Definition ev_paid3 : event := mk_event (RewardPaid 3 "0xBB" 47500) 104 0.
Definition ev_bounty8 : event := mk_event (BountyCreated 8 "0xAA" 1000) 105 0.

(** A second submission of hunter 0xBB, a submission to a bounty that was
    never indexed, a verdict on a submission that was never indexed, and a
    late verdict that contradicts the first. *)
Definition ev_submission4 : event := mk_event (SubmissionCreated 4 7 "0xBB") 106 0.
Definition ev_orphan_submission : event := mk_event (SubmissionCreated 5 99 "0xBB") 107 0.
Definition ev_orphan_verdict : event := mk_event (SubmissionValidated 42 3 true) 108 0.
Definition ev_invalidated3 : event := mk_event (SubmissionValidated 3 1 false) 109 0.

Definition chain0 : contract :=
  {| chain_bounties := fun _ =>
       {| bd_targetContract := "0xCC"; bd_totalReward := 50000;
          bd_remainingReward := 50000; bd_lockAmount := 0; bd_status := 0;
          bd_deadline := 1800000000; bd_isActive := true;
          bd_paymentToken := "0xDD" |};
     chain_submissions := fun _ =>
       {| sd_severity := 0; sd_status := 1; sd_rewardAmount := 0;
          sd_submittedAt := 1700000000; sd_isPaid := false |};
     chain_log := [ev_bounty7; ev_submission3; ev_validated3; ev_paid3; ev_bounty8];
     getBlockNumber := 125 |}.

(** A chain whose log holds only the submission and its verdict, without the
    bounty they belong to. *)
Definition chain_orphans : contract :=
  {| chain_bounties := chain_bounties chain0;
     chain_submissions := chain_submissions chain0;
     chain_log := [ev_submission3; ev_validated3];
     getBlockNumber := 110 |}.

(** A database with the checkpoint row at block 100 and nothing else. *)
Definition db_fresh : db :=
  set_indexer_state (insert key0 {| last_block := 100; last_updated := 0 |}) empty_db.

(** A database that holds bounty 7 of company 0xAA and the validated
    submission 3 of hunter 0xBB, with the checkpoint at block 100.  The
    bounties row and the submissions row are rows as another writer of the
    database leaves them: the INSERTs of the indexer into these two tables
    are refused. *)
Definition db0 : db :=
  {| users := <["0xaa" := {| u_id := 1; u_role := "company" |}]>
              (<["0xbb" := {| u_id := 2; u_role := "hunter" |}]> ∅);
     hunter_stats :=
       <["0xbb" := {| total_earned := 0; successful_submissions := 0;
                      total_submissions := 1 |}]> ∅;
     bounties :=
       <[7 := {| b_id := 1; b_company_id := 1;
                 b_target_contract_address := "0xcc"; b_total_reward := 50000;
                 b_remaining_reward := 50000; b_lock_amount := 0; b_status := 0;
                 b_deadline := 1800000000000; b_is_active := true;
                 b_payment_token := "0xdd"; b_block_number := 101;
                 b_tx_hash := "0x01"; b_created_at := 1700000000000;
                 b_updated_at := 1 |}]> ∅;
     submissions :=
       <[3 := {| s_id := 1; s_bounty_id := 1; s_hunter_id := 2; s_severity := 3;
                 s_status := 2; s_reward_amount := 0;
                 s_submitted_at := 1700000000000; s_is_paid := false;
                 s_block_number := 102; s_tx_hash := "0x01"; s_paid_at := None;
                 s_updated_at := 3 |}]> ∅;
     indexer_state := <[key0 := {| last_block := 100; last_updated := 0 |}]> ∅;
     users_id_seq := 3; bounties_id_seq := 2; submissions_id_seq := 2 |}.

(** ** Start-up *)

(** [initialize] connects the provider and the contract, which touches no
    table, and awaits [initializeState]. *)
Definition initialize (cfg : config) : prog unit := initializeState cfg.

(** [start], up to the point where the listeners are registered; an exception
    ends the process ([process.exit(1)]). *)
Definition start (bm : contract) (cfg : config) : prog unit :=
  initialize cfg ;; indexHistoricalEvents bm cfg.

(** ** Invariants of the projection *)

(** A relation between databases that a statement respects, whatever the
    clock and the database it runs on. *)
Definition statement_within (R : db -> db -> Prop) {A} (q : statement A) : Prop :=
  forall now s, R s (snd (q now s)).

(** Every statement a program can issue respects [R]. *)
Fixpoint steps_within (R : db -> db -> Prop) {A} (p : prog A) : Prop :=
  match p with
  | Ret _ | Throw _ => True
  | Query q k => statement_within R q /\ forall r, steps_within R (k r)
  end.

(** No row is deleted, and no users row is modified. *)
Definition grows (s s' : db) : Prop :=
  users s ⊆ users s' /\
  dom (hunter_stats s) ⊆ dom (hunter_stats s') /\
  dom (bounties s) ⊆ dom (bounties s') /\
  dom (submissions s) ⊆ dom (submissions s') /\
  dom (indexer_state s) ⊆ dom (indexer_state s').

(** The SERIAL ids of a table lie below its sequence and identify its rows. *)
Definition ids_below {K V} `{Countable K} (id : V -> Z) (m : gmap K V) (seq : Z) : Prop :=
  forall k v, m !! k = Some v -> id v < seq.

Definition ids_inj {K V} `{Countable K} (id : V -> Z) (m : gmap K V) : Prop :=
  forall k1 k2 v1 v2, m !! k1 = Some v1 -> m !! k2 = Some v2 -> id v1 = id v2 -> k1 = k2.

Definition ids_wf (s : db) : Prop :=
  (ids_below u_id (users s) (users_id_seq s) /\ ids_inj u_id (users s)) /\
  (ids_below b_id (bounties s) (bounties_id_seq s) /\ ids_inj b_id (bounties s)) /\
  (ids_below s_id (submissions s) (submissions_id_seq s) /\ ids_inj s_id (submissions s)).

(** [P] is carried from the first database to the second. *)
Definition keeps (P : db -> Prop) (s s' : db) : Prop := P s -> P s'.

(** Every hunter_stats row has a users row of the same wallet: the state in
    which handlers that run one after the other never run into a UNIQUE
    constraint. *)
Definition stats_have_user (s : db) : Prop :=
  forall w, is_Some (hunter_stats s !! w) -> is_Some (users s !! w).

(** The foreign keys: company_id and hunter_id name a users row, bounty_id a
    bounties row. *)
Definition user_id_in (s : db) (id : Z) : Prop :=
  exists w u, users s !! w = Some u /\ u_id u = id.

Definition bounty_id_in (s : db) (id : Z) : Prop :=
  exists b r, bounties s !! b = Some r /\ b_id r = id.

Definition valid_refs (s : db) : Prop :=
  (forall b r, bounties s !! b = Some r -> user_id_in s (b_company_id r)) /\
  (forall i r, submissions s !! i = Some r ->
     bounty_id_in s (s_bounty_id r) /\ user_id_in s (s_hunter_id r)).

(** A program that, from a database satisfying [P], violates no UNIQUE
    constraint and leaves a database satisfying [P]. *)
Definition sound (P : db -> Prop) (p : prog unit) : Prop :=
  forall now s,
    P s ->
    (forall c, fst (exec now p s) <> Thrown (UniqueViolation c)) /\
    P (snd (exec now p s)).

(** A property that does not read indexer_state. *)
Definition ignores_checkpoint (P : db -> Prop) : Prop :=
  forall f s, P s -> P (set_indexer_state f s).

(** The wallet keys of users and hunter_stats are in lower case. *)
Definition lowercase_keys (s : db) : Prop :=
  (forall w, is_Some (users s !! w) -> toLowerCase w = w) /\
  (forall w, is_Some (hunter_stats s !! w) -> toLowerCase w = w).

(** ** Configuration read from the environment

    contracts/addresses.js, the constructor of BlockchainIndexer,
    [BlockchainService.getRpcUrl] and the Redis client options. *)

(** [process.env]: the variables that are set, with their values. *)
Definition environment := gmap string string.

(** [process.env.NAME || fallback]: unset and empty values are falsy. *)
Definition env_or (e : environment) (name fallback : string) : string :=
  match e !! name with
  | Some v => if decide (v = "") then fallback else v
  | None => fallback
  end.

(** The members every object literal inherits from [Object.prototype]. *)
Definition object_prototype_names : list string :=
  ["constructor"; "__defineGetter__"; "__defineSetter__"; "hasOwnProperty";
   "__lookupGetter__"; "__lookupSetter__"; "isPrototypeOf"; "propertyIsEnumerable";
   "toString"; "valueOf"; "__proto__"; "toLocaleString"].

(** What [obj[key]] finds on an object literal: an own property, a member
    inherited from [Object.prototype] (truthy, and not a string), or
    [undefined]. *)
Inductive property (V : Type) :=
| Own (v : V)
| Inherited
| Undefined.
Arguments Own {V} v.
Arguments Inherited {V}.
Arguments Undefined {V}.

(** [obj[key]] *)
Definition get_property {V} (obj : gmap string V) (key : string) : property V :=
  match obj !! key with
  | Some v => Own v
  | None => if bool_decide (key ∈ object_prototype_names) then Inherited else Undefined
  end.

Definition ZERO_ADDRESS : string := "0x0000000000000000000000000000000000000000".

Definition contract_names : list string :=
  ["BountyManager"; "VaultManager"; "VulnerabilityValidator"; "MultiSigApproval";
   "CRIMEToken"].

Definition CONTRACT_ADDRESSES (e : environment) : gmap string (gmap string string) :=
  list_to_map
    [("mainnet", list_to_map
        [("BountyManager", env_or e "BOUNTY_MANAGER_ADDRESS_MAINNET" ZERO_ADDRESS);
         ("VaultManager", env_or e "VAULT_MANAGER_ADDRESS_MAINNET" ZERO_ADDRESS);
         ("VulnerabilityValidator", env_or e "VALIDATOR_ADDRESS_MAINNET" ZERO_ADDRESS);
         ("MultiSigApproval", env_or e "MULTISIG_ADDRESS_MAINNET" ZERO_ADDRESS);
         ("CRIMEToken", env_or e "CRIME_TOKEN_ADDRESS_MAINNET" ZERO_ADDRESS)]);
     ("sepolia", list_to_map
        [("BountyManager", env_or e "BOUNTY_MANAGER_ADDRESS" ZERO_ADDRESS);
         ("VaultManager", env_or e "VAULT_MANAGER_ADDRESS" ZERO_ADDRESS);
         ("VulnerabilityValidator", env_or e "VALIDATOR_ADDRESS" ZERO_ADDRESS);
         ("MultiSigApproval", env_or e "MULTISIG_ADDRESS" ZERO_ADDRESS);
         ("CRIMEToken", env_or e "CRIME_TOKEN_ADDRESS" ZERO_ADDRESS)]);
     ("polygon", list_to_map
        [("BountyManager", env_or e "BOUNTY_MANAGER_ADDRESS_POLYGON" ZERO_ADDRESS);
         ("VaultManager", env_or e "VAULT_MANAGER_ADDRESS_POLYGON" ZERO_ADDRESS);
         ("VulnerabilityValidator", env_or e "VALIDATOR_ADDRESS_POLYGON" ZERO_ADDRESS);
         ("MultiSigApproval", env_or e "MULTISIG_ADDRESS_POLYGON" ZERO_ADDRESS);
         ("CRIMEToken", env_or e "CRIME_TOKEN_ADDRESS_POLYGON" ZERO_ADDRESS)]);
     ("bsc", list_to_map
        [("BountyManager", env_or e "BOUNTY_MANAGER_ADDRESS_BSC" ZERO_ADDRESS);
         ("VaultManager", env_or e "VAULT_MANAGER_ADDRESS_BSC" ZERO_ADDRESS);
         ("VulnerabilityValidator", env_or e "VALIDATOR_ADDRESS_BSC" ZERO_ADDRESS);
         ("MultiSigApproval", env_or e "MULTISIG_ADDRESS_BSC" ZERO_ADDRESS);
         ("CRIMEToken", env_or e "CRIME_TOKEN_ADDRESS_BSC" ZERO_ADDRESS)]);
     ("localhost", list_to_map
        [("BountyManager", "0x5FbDB2315678afecb367f032d93F642f64180aa3");
         ("VaultManager", "0xe7f1725E7734CE288F8367e1Bb143E90bb3F0512");
         ("VulnerabilityValidator", "0x9fE46736679d2D9a65F0992F2272dE9f3c7fa6e0");
         ("MultiSigApproval", "0xCf7Ed3AccA5a467e9e704C703E8D87F634fB0Fc9");
         ("CRIMEToken", "0xDc64a140Aa3E981100a9becA4E685f962f0cF6C9")])].

(** [network || process.env.NETWORK || 'sepolia'], [network] defaulting to
    null. *)
Definition current_network (e : environment) (net : option string) : string :=
  match net with
  | Some n => if decide (n = "") then env_or e "NETWORK" "sepolia" else n
  | None => env_or e "NETWORK" "sepolia"
  end.

(** What [getContractAddress] returns or throws: a configured address; a
    value that is none ([undefined], or something inherited from
    [Object.prototype]); or the Error of line 100. *)
Inductive address_result :=
| Address (a : string)
| NotAnAddress
| NetworkNotSupported (net : string).

Definition getContractAddress (e : environment) (contractName : string)
    (net : option string) : address_result :=
  let currentNetwork := current_network e net in
  match get_property (CONTRACT_ADDRESSES e) currentNetwork with
  | Undefined => NetworkNotSupported currentNetwork
  | Inherited => NotAnAddress
  | Own table =>
      match get_property table contractName with
      | Own address => Address address
      | Inherited | Undefined => NotAnAddress
      end
  end.

(** [CONTRACT_ADDRESSES[currentNetwork] || {}], as the list of its own
    values ([Object.values]); an inherited member has none. *)
Definition getAllAddresses (e : environment) (net : option string) : list string :=
  match get_property (CONTRACT_ADDRESSES e) (current_network e net) with
  | Own table => snd <$> map_to_list table
  | Inherited | Undefined => []
  end.

Definition areContractsDeployed (e : environment) (net : option string) : bool :=
  forallb (fun addr => negb (String.eqb addr "") && negb (String.eqb addr ZERO_ADDRESS))
    (getAllAddresses e net).

(** The constructor of BlockchainIndexer: [this.network]. *)
Definition indexer_network (e : environment) : string :=
  if decide (e !! "NODE_ENV" = Some "production") then "mainnet" else "sepolia".

(** A JS value read from [process.env] is truthy when set and not empty. *)
Definition truthy (v : option string) : bool :=
  match v with
  | Some s => negb (String.eqb s "")
  | None => false
  end.

(** [a || b] *)
Definition js_or (a b : option string) : option string :=
  if truthy a then a else b.

(** The object literal of [getRpcUrl]; an unset variable is [undefined]. *)
Definition rpcUrls (e : environment) : gmap string (option string) :=
  list_to_map
    [("mainnet", e !! "ETHEREUM_RPC_URL");
     ("sepolia", js_or (e !! "SEPOLIA_RPC_URL") (e !! "ETHEREUM_RPC_URL"));
     ("polygon", e !! "POLYGON_RPC_URL");
     ("bsc", e !! "BSC_RPC_URL");
     ("localhost", Some "http://127.0.0.1:8545")].

(** What [getRpcUrl] returns or throws: a URL, a member inherited from
    [Object.prototype], or the Error of line 632. *)
Inductive rpc_result :=
| Url (u : string)
| NotAUrl
| NotConfigured (net : string).

(** [rpcUrls[this.network]], and the Error of line 632 when it is falsy. *)
Definition getRpcUrl (e : environment) (net : string) : rpc_result :=
  match get_property (rpcUrls e) net with
  | Own (Some url) => if truthy (Some url) then Url url else NotConfigured net
  | Own None | Undefined => NotConfigured net
  | Inherited => NotAUrl
  end.

(** [retryStrategy] of the Redis client: the delay in ms before reconnection
    attempt [times]. *)
Definition retryStrategy (times : Z) : Z := Z.min (times * 50) 2000.

(** The networks that have an address table and an RPC entry. *)
Definition network_names : list string :=
  ["mainnet"; "sepolia"; "polygon"; "bsc"; "localhost"].

(** Two environments. *)

Definition env0 : environment :=
  <["BOUNTY_MANAGER_ADDRESS_POLYGON" := "0x1234"]>
    (<["SEPOLIA_RPC_URL" := "https://sepolia.example"]>
       (<["ETHEREUM_RPC_URL" := "https://eth.example"]> ∅)).

Definition env1 : environment := <["ETHEREUM_RPC_URL" := "https://eth.example"]> ∅.

(** * Properties *)

(** ** Running programs *)

Lemma exec_bind {A B} now (m : prog A) (k : A -> prog B) s :
  exec now (bind m k) s =
  match exec now m s with
  | (Done a, s') => exec now (k a) s'
  | (Thrown e, s') => (Thrown e, s')
  end.
Proof.
  revert s. induction m as [a | R q k' IH | e]; intros s; simpl; [done | | done].
  destruct (q now s) as [[r | e] s']; [apply IH | done].
Qed.

Lemma exec_forEach_app {X} now (xs ys : list X) body s :
  exec now (forEach (xs ++ ys) body) s =
  match exec now (forEach xs body) s with
  | (Done _, s') => exec now (forEach ys body) s'
  | (Thrown e, s') => (Thrown e, s')
  end.
Proof.
  revert s. induction xs as [| x xs IH]; intros s; simpl; [done |].
  rewrite !exec_bind. destruct (exec now (body x) s) as [[[] | e] s']; [apply IH | done].
Qed.

Lemma exec_forEach_join {X} now (xs ys : list X) body (k : prog unit) s :
  exec now (forEach xs body ;; forEach ys body ;; k) s =
  exec now (forEach (xs ++ ys) body ;; k) s.
Proof.
  rewrite !exec_bind, exec_forEach_app.
  destruct (exec now (forEach xs body) s) as [[[] | e] s1]; [| done].
  by rewrite exec_bind.
Qed.

(** A process that lives long enough completes the run. *)
Lemma exec_until_enough {A} now (p : prog A) s n :
  (statements_issued now p s <= n)%nat ->
  exec_until n now p s = (Some (fst (exec now p s)), snd (exec now p s)).
Proof.
  revert s n. induction p as [a | R q k IH | e]; intros s n Hn; simpl in *;
    [done | | done].
  destruct (q now s) as [[r | e] s'].
  - destruct n as [| n]; [lia |]. apply IH. lia.
  - destruct n as [| n]; [lia | done].
Qed.

(** ** Numbers and their digits *)

Lemma StringToNumber_decimal n : StringToNumber (decimal n) = Some n.
Proof.
  unfold StringToNumber, decimal.
  assert (Hpos : forall p, Pos.to_uint p <> Decimal.Nil).
  { intros p Hp. pose proof (DecimalPos.Unsigned.of_to p) as H.
    rewrite Hp in H. discriminate H. }
  assert (Hisi : NilZero.int_of_string (NilZero.string_of_int (Z.to_int n))
                 = Some (Z.to_int n)).
  { apply NilZero.isi; destruct n as [| p | p]; simpl; try discriminate;
      intros [= H]; by apply (Hpos p). }
  destruct (NilZero.string_of_int (Z.to_int n)) eqn:Hs.
  - discriminate Hisi.
  - rewrite Hisi. simpl. f_equal. apply DecimalZ.of_to.
Qed.

Lemma ToNumber_decimal n : ToNumber (JString (decimal n)) = JNumber n.
Proof. simpl. by rewrite StringToNumber_decimal. Qed.

(** ** Map and record facts *)


Lemma set_submissions_id f s :
  f (submissions s) = submissions s -> set_submissions f s = s.
Proof. intros H. destruct s. unfold set_submissions. simpl in *. by rewrite H. Qed.


Lemma with_user_lookup wallet role s :
  exists u, users (with_user wallet role s) !! wallet = Some u.
Proof.
  unfold with_user. destruct (users s !! wallet) as [u |] eqn:Hu; [eauto |].
  simpl. rewrite lookup_insert_eq. eauto.
Qed.

(** ** The checkpoint frame *)

Lemma leaves_checkpoint_bind {A B} (m : prog A) (k : A -> prog B) :
  leaves_checkpoint m -> (forall a, leaves_checkpoint (k a)) ->
  leaves_checkpoint (bind m k).
Proof.
  induction m as [a | R q k' IH | e]; simpl; intros Hm Hk; [apply Hk | | done].
  destruct Hm as [Hq Hk']. split; [done |]. intros r. by apply IH.
Qed.

Lemma leaves_checkpoint_forEach {X} (xs : list X) body :
  (forall x, leaves_checkpoint (body x)) -> leaves_checkpoint (forEach xs body).
Proof.
  intros Hb. induction xs as [| x xs IH]; simpl; [done |].
  by apply leaves_checkpoint_bind.
Qed.

Lemma exec_leaves_checkpoint {A} (p : prog A) now s :
  leaves_checkpoint p -> indexer_state (snd (exec now p s)) = indexer_state s.
Proof.
  revert s. induction p as [a | R q k IH | e]; intros s Hp; simpl; [done | | done].
  destruct Hp as [Hq Hk].
  specialize (Hq now s). destruct (q now s) as [[r | e] s']; simpl in *.
  - rewrite IH by done. exact Hq.
  - exact Hq.
Qed.

Create HintDb frames.

Lemma frames_select_user_id w : frames_checkpoint (select_user_id w).
Proof. done. Qed.

Lemma frames_insert_user w r : frames_checkpoint (insert_user w r).
Proof. intros now s. unfold insert_user. by destruct (users s !! w). Qed.

Lemma frames_insert_hunter_stats w : frames_checkpoint (insert_hunter_stats w).
Proof. intros now s. unfold insert_hunter_stats. by destruct (hunter_stats s !! w). Qed.

Lemma frames_select_bounty_id b : frames_checkpoint (select_bounty_id b).
Proof. done. Qed.

Lemma frames_upsert_bounty b c t r1 r2 l st d a p bn tx cr :
  frames_checkpoint (upsert_bounty b c t r1 r2 l st d a p bn tx cr).
Proof. intros now s. unfold upsert_bounty. by destruct d, cr. Qed.

Lemma frames_upsert_submission i b h sv st rw sb p bn tx :
  frames_checkpoint (upsert_submission i b h sv st rw sb p bn tx).
Proof. intros now s. unfold upsert_submission. by destruct sb. Qed.

Lemma frames_increment_total_submissions w :
  frames_checkpoint (increment_total_submissions w).
Proof. done. Qed.

Lemma frames_update_submission_validated sv st i :
  frames_checkpoint (update_submission_validated sv st i).
Proof. done. Qed.

Lemma frames_update_submission_paid a i : frames_checkpoint (update_submission_paid a i).
Proof. done. Qed.

Lemma frames_increment_earned a w : frames_checkpoint (increment_earned a w).
Proof. done. Qed.

Lemma frames_update_bounty_completed b : frames_checkpoint (update_bounty_completed b).
Proof. done. Qed.

#[export] Hint Resolve frames_select_user_id frames_insert_user
  frames_insert_hunter_stats frames_select_bounty_id frames_upsert_bounty
  frames_upsert_submission frames_increment_total_submissions
  frames_update_submission_validated frames_update_submission_paid
  frames_increment_earned frames_update_bounty_completed : frames.

Ltac leaves_checkpoint_step :=
  match goal with
  | |- True => exact I
  | |- frames_checkpoint _ => solve [auto with frames]
  | |- _ /\ _ => split
  | |- forall _, _ => intros ?
  | |- context [match ?x with _ => _ end] => destruct x
  | |- _ => progress simpl
  end.

Lemma handleSubmissionCreated_leaves_checkpoint bm sid bid hunter ev :
  leaves_checkpoint (handleSubmissionCreated bm sid bid hunter ev).
Proof. unfold handleSubmissionCreated. repeat leaves_checkpoint_step. Qed.

Lemma handleEvent_leaves_checkpoint bm ev : leaves_checkpoint (handleEvent bm ev).
Proof.
  unfold handleEvent. destruct (args ev);
    [ unfold handleBountyCreated; repeat leaves_checkpoint_step
    | apply handleSubmissionCreated_leaves_checkpoint
    | unfold handleSubmissionValidated; repeat leaves_checkpoint_step
    | unfold handleRewardPaid; repeat leaves_checkpoint_step
    | unfold handleBountyCompleted; repeat leaves_checkpoint_step ].
Qed.

Lemma awaitQueryFilter_leaves_checkpoint bm name fromBlock toBlock :
  leaves_checkpoint
    (events <- awaitQueryFilter bm name fromBlock toBlock ;;
     forEach events (handleEvent bm)).
Proof.
  unfold awaitQueryFilter. destruct fromBlock, toBlock; simpl; try done.
  apply leaves_checkpoint_forEach. intros. apply handleEvent_leaves_checkpoint.
Qed.

Lemma checkpoint_last_bind {A} upd (m : prog A) (k : A -> prog unit) :
  leaves_checkpoint m -> (forall a, checkpoint_last upd (k a)) ->
  checkpoint_last upd (bind m k).
Proof.
  induction m as [a | R q k' IH | e]; simpl; intros Hm Hk;
    [apply Hk | | apply checkpoint_thrown].
  destruct Hm as [Hq Hk']. apply checkpoint_later; [done |].
  intros r. by apply IH.
Qed.

Lemma indexBatch_checkpoint_last bm cfg fromBlock toBlock :
  checkpoint_last (updateLastIndexedBlock cfg toBlock)
    (indexBatch bm cfg fromBlock toBlock).
Proof.
  unfold indexBatch, indexBountyCreatedEvents, indexSubmissionCreatedEvents,
    indexSubmissionValidatedEvents, indexRewardPaidEvents,
    indexBountyCompletedEvents.
  repeat (apply checkpoint_last_bind;
          [apply awaitQueryFilter_leaves_checkpoint | intros _]).
  apply checkpoint_here.
Qed.

Lemma checkpoint_last_exec_until cfg (block : Z) p :
  checkpoint_last (updateLastIndexedBlock cfg block) p ->
  forall n now s,
    match exec_until n now p s with
    | (Some (Done _), s') =>
        s' = snd (exec now p s) /\
        indexer_state s' = checkpoint_at cfg block now (indexer_state s)
    | (_, s') => indexer_state s' = indexer_state s
    end.
Proof.
  induction 1 as [| R q k Hq Hk IH | e]; intros n now s.
  - destruct n as [| n]; simpl; done.
  - simpl. destruct n as [| n]; [done |].
    specialize (Hq now s). destruct (q now s) as [[r | e] s1]; simpl in Hq; [| done].
    specialize (IH r n now s1).
    destruct (exec_until n now (k r) s1) as [[[[] | e] |] s']; by rewrite <- Hq.
  - done.
Qed.


(** ** What the handlers compute *)

Lemma handleRewardPaid_exec now sid hunter amount ev s :
  exec now (handleRewardPaid sid hunter amount ev) s =
  (Done tt,
   set_hunter_stats (alter (add_earned amount) (toLowerCase hunter))
     (set_submissions (alter (set_paid amount now) sid) s)).
Proof. reflexivity. Qed.

Lemma handleSubmissionValidated_exec now sid severity isValid ev s :
  exec now (handleSubmissionValidated sid severity isValid ev) s =
  (Done tt,
   set_submissions
     (alter (set_validation severity (if isValid then 2 else 3) now) sid) s).
Proof. reflexivity. Qed.

Lemma handleBountyCompleted_exec now bid ev s :
  exec now (handleBountyCompleted bid ev) s =
  (Done tt, set_bounties (alter (set_completed now) bid) s).
Proof. reflexivity. Qed.

Lemma getLastIndexedBlock_exec cfg now s :
  exec now (getLastIndexedBlock cfg) s = (Done (lastIndexedBlock cfg s), s).
Proof.
  unfold getLastIndexedBlock, lastIndexedBlock. simpl.
  by destruct (indexer_state s !! _).
Qed.

Lemma with_user_idemp wallet role s :
  with_user wallet role (with_user wallet role s) = with_user wallet role s.
Proof.
  unfold with_user at 1. by destruct (with_user_lookup wallet role s) as [u ->].
Qed.

(** The INSERT INTO bounties is refused: [handleBountyCreated] finds or
    creates the users row of the company, and throws. *)
Lemma handleBountyCreated_exec bm now b c tr ev s :
  exec now (handleBountyCreated bm b c tr ev) s =
  (Thrown InvalidDatetime, with_user (toLowerCase c) "company" s).
Proof.
  unfold handleBountyCreated, with_user. simpl.
  destruct (users s !! toLowerCase c) as [u |] eqn:Hu; simpl.
  - by destruct (js_date _).
  - unfold insert_user. rewrite Hu. simpl. by destruct (js_date _).
Qed.

Lemma handleSubmissionCreated_no_bounty bm now sid bid hunter ev s u :
  users s !! toLowerCase hunter = Some u ->
  bounties s !! bid = None ->
  exec now (handleSubmissionCreated bm sid bid hunter ev) s = (Done tt, s).
Proof.
  intros Hu Hb. unfold handleSubmissionCreated. simpl. rewrite Hu. simpl.
  rewrite Hb. reflexivity.
Qed.

(** With the users row and the bounties row in place the handler reaches its
    INSERT INTO submissions, which is refused. *)
Lemma handleSubmissionCreated_known bm now sid bid hunter ev s u row :
  users s !! toLowerCase hunter = Some u ->
  bounties s !! bid = Some row ->
  exec now (handleSubmissionCreated bm sid bid hunter ev) s =
  match js_date (sd_submittedAt (chain_submissions bm sid) * 1000) with
  | Some _ => (Thrown (NotNullViolation "title"), next_submissions_id s)
  | None => (Thrown InvalidDatetime, s)
  end.
Proof.
  intros Hu Hb. unfold handleSubmissionCreated. simpl. rewrite Hu. simpl.
  rewrite Hb. simpl. unfold upsert_submission. by destruct (js_date _).
Qed.

Lemma handleSubmissionCreated_new bm now sid bid hunter ev s :
  users s !! toLowerCase hunter = None ->
  hunter_stats s !! toLowerCase hunter = None ->
  exec now (handleSubmissionCreated bm sid bid hunter ev) s =
  exec now (handleSubmissionCreated bm sid bid hunter ev)
    (with_hunter (toLowerCase hunter) s).
Proof.
  intros Hu Hs. unfold handleSubmissionCreated, with_hunter. simpl.
  rewrite Hu. simpl. unfold insert_user. rewrite Hu. simpl.
  unfold insert_hunter_stats. simpl. rewrite Hs. simpl.
  rewrite lookup_insert_eq. reflexivity.
Qed.

Lemma handleSubmissionCreated_clash bm now sid bid hunter ev s row :
  users s !! toLowerCase hunter = None ->
  hunter_stats s !! toLowerCase hunter = Some row ->
  exec now (handleSubmissionCreated bm sid bid hunter ev) s =
  (Thrown (UniqueViolation "hunter_stats_wallet_address_key"),
   with_user (toLowerCase hunter) "hunter" s).
Proof.
  intros Hu Hs. unfold handleSubmissionCreated, with_user. simpl.
  rewrite Hu. simpl. unfold insert_user. rewrite Hu. simpl.
  unfold insert_hunter_stats. simpl. rewrite Hs. reflexivity.
Qed.

Lemma handleSubmissionCreated_keeps_submissions bm now sid bid hunter ev s :
  submissions (snd (exec now (handleSubmissionCreated bm sid bid hunter ev) s))
    = submissions s /\
  bounties (snd (exec now (handleSubmissionCreated bm sid bid hunter ev) s))
    = bounties s.
Proof.
  unfold handleSubmissionCreated. simpl.
  destruct (users s !! toLowerCase hunter) as [u |] eqn:Hu; simpl.
  - destruct (bounties s !! bid); simpl; [| done].
    unfold upsert_submission. by destruct (js_date _).
  - unfold insert_user. rewrite Hu. simpl. unfold insert_hunter_stats. simpl.
    destruct (hunter_stats s !! toLowerCase hunter); simpl; [done |].
    destruct (bounties s !! bid); simpl; [| done].
    unfold upsert_submission. by destruct (js_date _).
Qed.

Lemma rows_inv s1 s2 :
  rows s1 = rows s2 ->
  users s1 = users s2 /\ hunter_stats s1 = hunter_stats s2 /\
  bounties s1 = bounties s2 /\ submissions s1 = submissions s2 /\
  indexer_state s1 = indexer_state s2.
Proof. unfold rows. by intros [= -> -> -> -> ->]. Qed.

Lemma rows_users s1 s2 : rows s1 = rows s2 -> users s1 = users s2.
Proof. intros H. by destruct (rows_inv _ _ H) as (-> & _). Qed.

(** A hunter who has a users row: the handler changes no row. *)
Lemma handleSubmissionCreated_known_rows bm now sid bid hunter ev s u :
  users s !! toLowerCase hunter = Some u ->
  rows (snd (exec now (handleSubmissionCreated bm sid bid hunter ev) s)) = rows s.
Proof.
  intros Hu. destruct (bounties s !! bid) as [row |] eqn:Hb.
  - rewrite (handleSubmissionCreated_known bm now _ _ _ _ s u row Hu Hb).
    by destruct (js_date _).
  - by rewrite (handleSubmissionCreated_no_bounty bm now _ _ _ _ s u Hu Hb).
Qed.

(** Whatever its outcome, the handler leaves a users row for the hunter. *)
Lemma handleSubmissionCreated_user bm now sid bid hunter ev s :
  is_Some (users (snd (exec now (handleSubmissionCreated bm sid bid hunter ev) s))
             !! toLowerCase hunter).
Proof.
  destruct (users s !! toLowerCase hunter) as [u |] eqn:Hu.
  - rewrite (rows_users _ _ (handleSubmissionCreated_known_rows bm now sid bid hunter ev
                                s u Hu)). eauto.
  - destruct (hunter_stats s !! toLowerCase hunter) as [row |] eqn:Hs.
    + rewrite (handleSubmissionCreated_clash bm now _ _ _ _ s row Hu Hs).
      unfold with_user. rewrite Hu. simpl. rewrite lookup_insert_eq. eauto.
    + rewrite (handleSubmissionCreated_new bm now _ _ _ _ s Hu Hs).
      assert (Hu' : users (with_hunter (toLowerCase hunter) s) !! toLowerCase hunter
                    = Some {| u_id := users_id_seq s; u_role := "hunter" |})
        by (unfold with_hunter; simpl; apply lookup_insert_eq).
      rewrite (rows_users _ _ (handleSubmissionCreated_known_rows bm now sid bid hunter ev
                                  _ _ Hu')). eauto.
Qed.

(** ** C1: duplicate delivery *)

(** C1 (as amended): the same event delivered a second time, right after
    the first, with the chain read the same both times; the database after
    the second delivery is compared with the database after the first.  A
    second SubmissionValidated or BountyCompleted changes nothing but
    updated_at of the row it names.  A second BountyCreated creates no
    further users row and no further bounties row, and a second
    SubmissionCreated creates no further users, hunter_stats or submissions
    row: the rows they create are guarded by a SELECT or by ON CONFLICT;
    neither changes a users row or a table the handler does not write.  A
    second RewardPaid is not a no-op: its increments are not guarded, so it
    adds the amount to total_earned and 1 to successful_submissions once
    more, and sets paid_at and updated_at anew. *)
Theorem duplicate_delivery bm t1 t2 ev s :
  match args ev with
  | BountyCreated _ _ _ =>
      users (deliver bm t2 ev (deliver bm t1 ev s)) = users (deliver bm t1 ev s) /\
      dom (bounties (deliver bm t2 ev (deliver bm t1 ev s)))
        = dom (bounties (deliver bm t1 ev s)) /\
      hunter_stats (deliver bm t2 ev (deliver bm t1 ev s))
        = hunter_stats (deliver bm t1 ev s) /\
      submissions (deliver bm t2 ev (deliver bm t1 ev s))
        = submissions (deliver bm t1 ev s) /\
      indexer_state (deliver bm t2 ev (deliver bm t1 ev s))
        = indexer_state (deliver bm t1 ev s)
  | SubmissionCreated _ _ _ =>
      users (deliver bm t2 ev (deliver bm t1 ev s)) = users (deliver bm t1 ev s) /\
      dom (hunter_stats (deliver bm t2 ev (deliver bm t1 ev s)))
        = dom (hunter_stats (deliver bm t1 ev s)) /\
      dom (submissions (deliver bm t2 ev (deliver bm t1 ev s)))
        = dom (submissions (deliver bm t1 ev s)) /\
      bounties (deliver bm t2 ev (deliver bm t1 ev s))
        = bounties (deliver bm t1 ev s) /\
      indexer_state (deliver bm t2 ev (deliver bm t1 ev s))
        = indexer_state (deliver bm t1 ev s)
  | SubmissionValidated sid _ _ =>
      deliver bm t2 ev (deliver bm t1 ev s)
      = set_submissions (alter (touch_submission t2) sid) (deliver bm t1 ev s)
  | BountyCompleted bid =>
      deliver bm t2 ev (deliver bm t1 ev s)
      = set_bounties (alter (touch_bounty t2) bid) (deliver bm t1 ev s)
  | RewardPaid sid hunter amount =>
      deliver bm t2 ev (deliver bm t1 ev s)
      = set_hunter_stats (alter (add_earned amount) (toLowerCase hunter))
          (set_submissions (alter (repay t2) sid) (deliver bm t1 ev s))
  end.
Proof.
  unfold deliver, handleEvent.
  destruct (args ev) as [b c tr | sid bid h | sid sv v | sid h a | b].
  - rewrite !handleBountyCreated_exec. cbn [snd]. by rewrite with_user_idemp.
  - destruct (handleSubmissionCreated_user bm t1 sid bid h ev s) as [u Hu].
    pose proof (handleSubmissionCreated_known_rows bm t2 sid bid h ev _ u Hu) as Hr.
    destruct (rows_inv _ _ Hr) as (-> & -> & -> & -> & ->). done.
  - rewrite !handleSubmissionValidated_exec. simpl.
    unfold set_submissions. simpl. f_equal.
    rewrite !alter_alter_eq. apply alter_ext. by intros x _.
  - rewrite !handleRewardPaid_exec. simpl.
    unfold set_hunter_stats, set_submissions. simpl. f_equal.
    rewrite !alter_alter_eq. apply alter_ext. by intros x _.
  - rewrite !handleBountyCompleted_exec. simpl.
    unfold set_bounties. simpl. f_equal.
    rewrite !alter_alter_eq. apply alter_ext. by intros x _.
Qed.

(** C1 (counterexample): RewardPaid(3, 0xBB, 47500) delivered once credits
    hunter 0xBB with 47500 and one successful submission; delivered a second
    time it credits 95000 and two. *)
Lemma duplicate_delivery_double_counts :
  hunter_stats (deliver chain0 1000 ev_paid3 db0) !! "0xbb" =
    Some {| total_earned := 47500; successful_submissions := 1;
            total_submissions := 1 |} /\
  hunter_stats (deliver chain0 2000 ev_paid3 (deliver chain0 1000 ev_paid3 db0)) !! "0xbb" =
    Some {| total_earned := 95000; successful_submissions := 2;
            total_submissions := 1 |} /\
  hunter_stats (deliver chain0 2000 ev_paid3 (deliver chain0 1000 ev_paid3 db0))
    <> hunter_stats (deliver chain0 1000 ev_paid3 db0).
Proof.
  repeat split; try (vm_compute; reflexivity).
  intros H. apply (f_equal (fun m : gmap string stats_row => m !! "0xbb")) in H.
  vm_compute in H. discriminate.
Qed.

(** ** C2: a batch is not atomic; the checkpoint is its last write *)

(** C2 (as amended): every statement of a backfill batch commits on its
    own.  If the process dies or a statement rejects before the batch
    returns, the checkpoint row is exactly as before the batch, whatever
    projection writes the batch has already committed; if the batch returns,
    the database is that of the complete run and the checkpoint has been set
    to the batch's upper bound.  So the checkpoint is never advanced without
    the batch's projection writes, while projection writes can stay
    committed without the checkpoint advanced. *)
Theorem indexBatch_checkpoint_written_last bm cfg fromBlock (toBlock : Z) n now s :
  match exec_until n now (indexBatch bm cfg fromBlock toBlock) s with
  | (Some (Done _), s') =>
      s' = snd (exec now (indexBatch bm cfg fromBlock toBlock) s) /\
      indexer_state s' = checkpoint_at cfg toBlock now (indexer_state s)
  | (_, s') => indexer_state s' = indexer_state s
  end.
Proof.
  apply checkpoint_last_exec_until, indexBatch_checkpoint_last.
Qed.

(** C2 (counterexample): the batch of block 104 holds the RewardPaid event
    of submission 3.  If the process dies after two statements, the
    submission is marked paid and the hunter credited, but the checkpoint
    still reads 100: the database is neither the one before the batch nor
    the one after it.  And a statement that rejects does the same: historical
    indexing from an empty database stops in its first batch, at the
    BountyCreated event of block 101, with the users row of the company
    committed and indexer_state as it was. *)
Lemma indexBatch_crash_not_atomic :
  (fst (exec 1000 (indexHistoricalEvents chain0 cfg0) empty_db) = Thrown InvalidDatetime /\
   users empty_db !! "0xaa" = None /\
   users (snd (exec 1000 (indexHistoricalEvents chain0 cfg0) empty_db)) !! "0xaa"
     = Some {| u_id := 1; u_role := "company" |} /\
   indexer_state (snd (exec 1000 (indexHistoricalEvents chain0 cfg0) empty_db))
     = indexer_state empty_db) /\
  fst (exec_until 2 1000 (indexBatch chain0 cfg0 104 104) db0) = None /\
  s_is_paid <$> submissions (snd (exec_until 2 1000 (indexBatch chain0 cfg0 104 104) db0)) !! 3
    = Some true /\
  s_is_paid <$> submissions db0 !! 3 = Some false /\
  last_block <$> indexer_state (snd (exec_until 2 1000 (indexBatch chain0 cfg0 104 104) db0)) !! key0
    = Some 100 /\
  last_block <$> indexer_state (snd (exec 1000 (indexBatch chain0 cfg0 104 104) db0)) !! key0
    = Some 104 /\
  rows (snd (exec_until 2 1000 (indexBatch chain0 cfg0 104 104) db0)) <> rows db0 /\
  rows (snd (exec_until 2 1000 (indexBatch chain0 cfg0 104 104) db0))
    <> rows (snd (exec 1000 (indexBatch chain0 cfg0 104 104) db0)).
Proof.
  repeat split; try (vm_compute; reflexivity).
  - intros H.
    apply (f_equal (fun r => s_is_paid <$> (r.1.2 : gmap Z submission_row) !! 3)) in H.
    vm_compute in H. discriminate.
  - intros H.
    apply (f_equal (fun r => last_block <$> (r.2 : gmap (string * string) indexer_row) !! key0)) in H.
    vm_compute in H. discriminate.
Qed.

(** ** C3: events whose parent row is missing *)

(** C3 (as amended): when [handleSubmissionCreated] finds no bounties row
    for the event's bountyId it logs and returns: it reports no error for the
    missing bounty (it rejects only when the INSERT into hunter_stats hits an
    existing row), it creates and changes no submissions row, and it leaves
    bounties and the checkpoint as they were.  [handleSubmissionValidated]
    for a submissionId with no submissions row returns normally and leaves
    the whole database unchanged.  Neither stops the batch. *)
Theorem missing_parent_is_skipped bm now sid bid hunter ev sid' severity isValid ev' s :
  bounties s !! bid = None ->
  submissions s !! sid' = None ->
  fst (exec now (handleSubmissionCreated bm sid bid hunter ev) s) =
    match users s !! toLowerCase hunter, hunter_stats s !! toLowerCase hunter with
    | None, Some _ => Thrown (UniqueViolation "hunter_stats_wallet_address_key")
    | _, _ => Done tt
    end /\
  submissions (snd (exec now (handleSubmissionCreated bm sid bid hunter ev) s))
    = submissions s /\
  bounties (snd (exec now (handleSubmissionCreated bm sid bid hunter ev) s))
    = bounties s /\
  indexer_state (snd (exec now (handleSubmissionCreated bm sid bid hunter ev) s))
    = indexer_state s /\
  exec now (handleSubmissionValidated sid' severity isValid ev') s = (Done tt, s).
Proof.
  intros Hb Hs.
  destruct (handleSubmissionCreated_keeps_submissions bm now sid bid hunter ev s)
    as [Hsub Hbty].
  split; [| split; [exact Hsub | split; [exact Hbty | split]]].
  - destruct (users s !! toLowerCase hunter) as [u |] eqn:Hu.
    + by rewrite (handleSubmissionCreated_no_bounty bm now _ _ _ _ s u Hu Hb).
    + destruct (hunter_stats s !! toLowerCase hunter) as [row |] eqn:Hh.
      * by rewrite (handleSubmissionCreated_clash bm now _ _ _ _ s row Hu Hh).
      * rewrite (handleSubmissionCreated_new bm now _ _ _ _ s Hu Hh).
        by erewrite handleSubmissionCreated_no_bounty;
          [| unfold with_hunter; simpl; apply lookup_insert_eq | exact Hb].
  - apply exec_leaves_checkpoint, handleSubmissionCreated_leaves_checkpoint.
  - rewrite handleSubmissionValidated_exec. f_equal.
    apply set_submissions_id. by apply alter_id'.
Qed.

(** C3 (witness): bounty 99 and submission 42 are not in the database. *)
Lemma missing_parent_is_skipped_witness :
  bounties db0 !! 99 = None /\
  submissions db0 !! 42 = None /\
  submissions (snd (exec 1000 (handleSubmissionCreated chain0 5 99 "0xBB"
                                 ev_orphan_submission) db0)) = submissions db0 /\
  exec 1000 (handleSubmissionValidated 42 3 true ev_orphan_verdict) db0 = (Done tt, db0).
Proof.
  assert (Hb : bounties db0 !! 99 = None) by (vm_compute; reflexivity).
  assert (Hs : submissions db0 !! 42 = None) by (vm_compute; reflexivity).
  destruct (missing_parent_is_skipped chain0 1000 5 99 "0xBB" ev_orphan_submission
              42 3 true ev_orphan_verdict db0 Hb Hs) as (_ & H2 & _ & _ & H5).
  repeat split; assumption.
Defined.

(** C3 (counterexample): the batch of blocks 102 to 103 is indexed on a
    database that holds neither bounty 7 nor submission 3.  Both the
    SubmissionCreated and the SubmissionValidated of submission 3 are
    skipped without an error, the batch returns normally and the checkpoint
    advances to 103.  Likewise historical indexing of a log that holds only
    these two events, from an empty database, runs through both of its
    batches and returns normally, with no submissions row written. *)
Lemma missing_parent_not_reported :
  (fst (exec 1000 (indexHistoricalEvents chain_orphans cfg0) empty_db) = Done tt /\
   submissions (snd (exec 1000 (indexHistoricalEvents chain_orphans cfg0) empty_db))
     = submissions empty_db) /\
  map blockNumber (batch_events chain0 102 103) = [102; 103] /\
  fst (exec 1000 (handleEvent chain0 ev_submission3) db_fresh) = Done tt /\
  fst (exec 1000 (handleEvent chain0 ev_validated3) db_fresh) = Done tt /\
  fst (exec 1000 (indexBatch chain0 cfg0 102 103) db_fresh) = Done tt /\
  submissions (snd (exec 1000 (indexBatch chain0 cfg0 102 103) db_fresh)) !! 3 = None /\
  last_block <$> indexer_state (snd (exec 1000 (indexBatch chain0 cfg0 102 103) db_fresh)) !! key0
    = Some 103.
Proof. repeat split; vm_compute; reflexivity. Qed.

(** ** C4: the checkpoint update *)

(** C4 (as amended): [updateLastIndexedBlock] has no regression check.  It
    never fails and sets last_block of the (contract, network) row, when
    that row exists, to the block number it is given, whether that is above
    or below the stored value; the other tables are untouched.  The indexer
    has no separate rewind operation. *)
Theorem updateLastIndexedBlock_overwrites cfg now (block : Z) s :
  exec now (updateLastIndexedBlock cfg block) s =
    (Done tt, set_indexer_state (checkpoint_at cfg block now) s) /\
  last_block <$> checkpoint_at cfg block now (indexer_state s)
                   !! (contract_address cfg, network cfg)
    = (fun _ => block) <$> indexer_state s !! (contract_address cfg, network cfg).
Proof.
  split; [reflexivity |].
  unfold checkpoint_at. rewrite lookup_alter_eq.
  by destruct (indexer_state s !! _).
Qed.

(** C4 (counterexample): with the checkpoint at 100, the update to block 50
    succeeds and the checkpoint reads 50. *)
Lemma updateLastIndexedBlock_moves_backward :
  last_block <$> indexer_state db0 !! key0 = Some 100 /\
  fst (exec 1000 (updateLastIndexedBlock cfg0 50) db0) = Done tt /\
  last_block <$> indexer_state (snd (exec 1000 (updateLastIndexedBlock cfg0 50) db0)) !! key0
    = Some 50.
Proof. repeat split; vm_compute; reflexivity. Qed.

(** ** C5: status writes *)

(** C5 (as amended): the status writes are unconditional.
    [handleSubmissionValidated] sets the severity and sets the status to 2
    (Valid) or 3 (Invalid) on the submission row whatever its current
    status; [handleBountyCompleted] sets status 4 (Completed) and clears
    is_active on the bounty row whatever its current status.  Neither ever
    rejects an event. *)
Theorem status_is_overwritten now sid severity isValid ev bid ev' s :
  fst (exec now (handleSubmissionValidated sid severity isValid ev) s) = Done tt /\
  s_status <$> submissions (snd (exec now (handleSubmissionValidated sid severity isValid ev) s)) !! sid
    = (fun _ => if isValid then 2 else 3) <$> submissions s !! sid /\
  s_severity <$> submissions (snd (exec now (handleSubmissionValidated sid severity isValid ev) s)) !! sid
    = (fun _ => severity) <$> submissions s !! sid /\
  fst (exec now (handleBountyCompleted bid ev') s) = Done tt /\
  b_status <$> bounties (snd (exec now (handleBountyCompleted bid ev') s)) !! bid
    = (fun _ => 4) <$> bounties s !! bid /\
  b_is_active <$> bounties (snd (exec now (handleBountyCompleted bid ev') s)) !! bid
    = (fun _ => false) <$> bounties s !! bid.
Proof.
  rewrite handleSubmissionValidated_exec, handleBountyCompleted_exec. simpl.
  rewrite !lookup_alter_eq.
  destruct (submissions s !! sid), (bounties s !! bid); done.
Qed.

(** C5 (counterexample): submission 3 is Valid (status 2), not Pending.  A
    SubmissionValidated event with isValid = false is accepted and turns it
    Invalid (status 3). *)
Lemma validated_submission_is_revalidated :
  s_status <$> submissions db0 !! 3 = Some 2 /\
  fst (exec 1000 (handleEvent chain0 ev_invalidated3) db0) = Done tt /\
  s_status <$> submissions (snd (exec 1000 (handleEvent chain0 ev_invalidated3) db0)) !! 3
    = Some 3.
Proof. repeat split; vm_compute; reflexivity. Qed.

(** ** C6: the block ranges of historical indexing *)

Lemma loop_indices_lookup fuel i cb bs k j :
  loop_indices fuel i cb bs !! k = Some j -> j = i + Z.of_nat k * bs /\ j <= cb.
Proof.
  revert i k. induction fuel as [| fuel IH]; intros i k; simpl; [done |].
  destruct (Z.leb_spec i cb) as [Hle | Hgt]; [| done].
  destruct k as [| k]; simpl.
  - intros [= <-]. lia.
  - intros Hk. apply IH in Hk. lia.
Qed.

(** The fuel of [batch_ranges] never cuts the loop short. *)
Lemma loop_indices_complete fuel i cb bs k :
  0 < bs -> (Z.to_nat (cb - i + 1) <= fuel)%nat ->
  i + Z.of_nat k * bs <= cb ->
  loop_indices fuel i cb bs !! k = Some (i + Z.of_nat k * bs).
Proof.
  intros Hbs. revert i k. induction fuel as [| fuel IH]; intros i k Hfuel Hk.
  - assert (0 <= Z.of_nat k * bs) by nia. lia.
  - assert (0 <= Z.of_nat k * bs) by nia. simpl.
    destruct (Z.leb_spec i cb) as [Hle | Hgt]; [| lia].
    destruct k as [| k]; simpl; [f_equal; lia |].
    rewrite IH; [f_equal; lia | lia | nia].
Qed.

Lemma batch_ranges_lookup lastBlock currentBlock bs k :
  0 < bs ->
  batch_ranges lastBlock currentBlock bs !! k =
  if lastBlock + Z.of_nat k * bs <=? currentBlock
  then Some (lastBlock + Z.of_nat k * bs,
             Z.min (lastBlock + (Z.of_nat k + 1) * bs - 1) currentBlock)
  else None.
Proof.
  intros Hbs. unfold batch_ranges. rewrite list_lookup_fmap.
  destruct (Z.leb_spec (lastBlock + Z.of_nat k * bs) currentBlock) as [Hle | Hgt].
  - rewrite loop_indices_complete by (done || lia). simpl. unfold batch_range.
    do 2 f_equal. lia.
  - destruct (loop_indices _ _ _ _ !! k) as [j |] eqn:Hj; [| done].
    apply loop_indices_lookup in Hj. lia.
Qed.


(** Started at a number, the loop of the source is the loop on numbers. *)
Lemma loop_values_number fuel n cb bs :
  loop_values fuel (JNumber n) cb bs = map JNumber (loop_indices fuel n cb bs).
Proof.
  revert n. induction fuel as [| fuel IH]; intros n; simpl; [done |].
  change (js_le (JNumber n) cb) with (n <=? cb).
  destruct (n <=? cb); [| done]. simpl. by rewrite IH.
Qed.

Lemma js_batch_ranges_number n cb bs :
  js_batch_ranges (JNumber n) cb bs =
  map (fun r => (JNumber (fst r), JNumber (snd r))) (batch_ranges n cb bs).
Proof.
  unfold js_batch_ranges, batch_ranges. simpl. rewrite loop_values_number.
  rewrite !map_map. reflexivity.
Qed.

(** The loop starts at the value it is given, whenever it starts. *)
Lemma js_batch_ranges_first v n cb bs :
  ToNumber v = JNumber n -> n <= cb ->
  exists rest, js_batch_ranges v cb bs = js_batch_range v cb bs :: rest.
Proof.
  intros Hv Hn. unfold js_batch_ranges. rewrite Hv.
  destruct (Z.to_nat (cb - n + 1)) as [| fuel] eqn:Hf; [lia |].
  simpl. unfold js_le. rewrite Hv.
  destruct (Z.leb_spec n cb); [| lia]. simpl. eauto.
Qed.

Lemma ToNumber_lastIndexedBlock cfg s :
  ToNumber (lastIndexedBlock cfg s) = JNumber (checkpointBlock cfg s).
Proof.
  unfold lastIndexedBlock, checkpointBlock.
  destruct (indexer_state s !! _); [apply ToNumber_decimal | done].
Qed.

Lemma js_ge_lastIndexedBlock cfg s head :
  js_ge (lastIndexedBlock cfg s) head = (checkpointBlock cfg s >=? head).
Proof. unfold js_ge. by rewrite ToNumber_lastIndexedBlock. Qed.

(** ethers refuses a lower bound that is not a number, before any event of
    the batch is fetched. *)
Lemma indexBatch_refused bm cfg fromBlock toBlock now s :
  (forall n, fromBlock <> JNumber n) ->
  exec now (indexBatch bm cfg fromBlock toBlock) s = (Thrown InvalidBlockTag, s).
Proof. intros Hf. destruct fromBlock as [n | t |]; [by destruct (Hf n) | done | done]. Qed.

Lemma indexHistoricalEvents_exec bm cfg now s :
  exec now (indexHistoricalEvents bm cfg) s =
  if js_ge (lastIndexedBlock cfg s) (getBlockNumber bm)
  then (Done tt, s)
  else exec now
         (forEach (js_batch_ranges (lastIndexedBlock cfg s) (getBlockNumber bm)
                     (batchSize cfg))
            (fun r => indexBatch bm cfg (fst r) (snd r))) s.
Proof.
  unfold indexHistoricalEvents. rewrite exec_bind, getLastIndexedBlock_exec.
  by destruct (js_ge _ _).
Qed.

(** With a checkpoint row below the head, the stored block comes back as a
    string and the first fetch of the loop is refused. *)
Lemma indexHistoricalEvents_refused bm cfg now s row :
  indexer_state s !! (contract_address cfg, network cfg) = Some row ->
  last_block row < getBlockNumber bm ->
  exec now (indexHistoricalEvents bm cfg) s = (Thrown InvalidBlockTag, s).
Proof.
  intros Hrow Hlt. rewrite indexHistoricalEvents_exec, js_ge_lastIndexedBlock.
  assert (Hc : checkpointBlock cfg s = last_block row)
    by (unfold checkpointBlock; by rewrite Hrow).
  rewrite Hc. destruct (Z.geb_spec (last_block row) (getBlockNumber bm)); [lia |].
  destruct (js_batch_ranges_first (lastIndexedBlock cfg s) (last_block row)
              (getBlockNumber bm) (batchSize cfg)) as [rest ->];
    [by rewrite ToNumber_lastIndexedBlock, Hc | lia |].
  cbn [forEach]. rewrite exec_bind. cbn [fst snd js_batch_range].
  rewrite indexBatch_refused; [done |].
  unfold lastIndexedBlock. rewrite Hrow. done.
Qed.


Lemma forEach_map {X Y} (f : X -> Y) (xs : list X) (body : Y -> prog unit) :
  forEach (map f xs) body = forEach xs (fun x => body (f x)).
Proof. induction xs as [| x xs IH]; simpl; [done |]. by rewrite IH. Qed.




(** ** C7: the order of events within a batch *)

Lemma event_name_eqb_eq a b : event_name_eqb a b = true <-> a = b.
Proof. destruct a, b; simpl; split; congruence. Qed.

Lemma queryFilter_elem bm name fromBlock toBlock e :
  e ∈ queryFilter bm name fromBlock toBlock <->
  e ∈ chain_log bm /\ name_of (args e) = name /\
  fromBlock <= blockNumber e <= toBlock.
Proof.
  unfold queryFilter. rewrite !list_elem_of_In, filter_In, andb_true_iff.
  rewrite event_name_eqb_eq. unfold in_range. rewrite andb_true_iff, !Z.leb_le.
  tauto.
Qed.

Lemma queryFilter_sorted bm name fromBlock toBlock :
  StronglySorted event_key_lt (chain_log bm) ->
  StronglySorted applied_before (queryFilter bm name fromBlock toBlock).
Proof.
  intros Hs. unfold queryFilter.
  induction Hs as [| x l Hl IH Hx]; simpl; [constructor |].
  destruct (event_name_eqb (name_of (args x)) name && in_range fromBlock toBlock x) eqn:Hfx;
    [| done].
  constructor; [done |].
  rewrite List.Forall_forall in *. intros y Hy. apply filter_In in Hy as [Hy Hfy].
  apply andb_true_iff in Hfx as [Hnx _]. apply andb_true_iff in Hfy as [Hny _].
  apply event_name_eqb_eq in Hnx, Hny. right. split; [congruence | by apply Hx].
Qed.

Lemma StronglySorted_app_across {A} (R : A -> A -> Prop) l1 l2 :
  StronglySorted R l1 -> StronglySorted R l2 ->
  (forall x y, x ∈ l1 -> y ∈ l2 -> R x y) ->
  StronglySorted R (l1 ++ l2).
Proof.
  intros H1 H2 H12. induction H1 as [| x l Hl IH Hx]; simpl; [done |].
  constructor.
  - apply IH. intros a b Ha Hb. apply H12; [by right | done].
  - rewrite List.Forall_forall in *. intros y Hy. apply in_app_or in Hy as [Hy | Hy].
    + by apply Hx.
    + apply H12; [by left | by apply list_elem_of_In].
Qed.

Lemma StronglySorted_lookup_lt {A} (R : A -> A -> Prop) l i j x y :
  StronglySorted R l -> (i < j)%nat -> l !! i = Some x -> l !! j = Some y -> R x y.
Proof.
  intros Hs. revert i j. induction Hs as [| a l Hl IH Ha]; intros i j Hij Hi Hj; [done |].
  destruct j as [| j]; [lia |]. simpl in Hj.
  destruct i as [| i]; simpl in Hi.
  - injection Hi as <-. rewrite List.Forall_forall in Ha. apply Ha.
    apply list_elem_of_In. by eapply list_elem_of_lookup_2.
  - eapply IH; [| done..]. lia.
Qed.

Lemma batch_events_sorted bm fromBlock toBlock :
  StronglySorted event_key_lt (chain_log bm) ->
  StronglySorted applied_before (batch_events bm fromBlock toBlock).
Proof.
  intros Hs. unfold batch_events.
  repeat (apply StronglySorted_app_across;
          [by apply queryFilter_sorted | | ]);
    try by apply queryFilter_sorted.
  all: intros x y Hx Hy; rewrite ?elem_of_app in Hy;
    rewrite !queryFilter_elem in *; left;
    destruct Hx as (_ & -> & _);
    repeat (destruct Hy as [Hy | Hy]); destruct Hy as (_ & -> & _); simpl; lia.
Qed.

Lemma batch_events_elem bm fromBlock toBlock e :
  e ∈ batch_events bm fromBlock toBlock <->
  e ∈ chain_log bm /\ fromBlock <= blockNumber e <= toBlock.
Proof.
  unfold batch_events. rewrite !elem_of_app, !queryFilter_elem.
  destruct (name_of (args e)); split; intros H; try tauto;
    repeat (destruct H as [H | H]; [tauto |]); tauto.
Qed.

Lemma indexBatch_applies_batch_events bm cfg (fromBlock toBlock : Z) now s :
  exec now (indexBatch bm cfg fromBlock toBlock) s =
  exec now (forEach (batch_events bm fromBlock toBlock) (handleEvent bm) ;;
            updateLastIndexedBlock cfg toBlock) s.
Proof.
  unfold indexBatch, batch_events, indexBountyCreatedEvents,
    indexSubmissionCreatedEvents, indexSubmissionValidatedEvents,
    indexRewardPaidEvents, indexBountyCompletedEvents, awaitQueryFilter.
  cbn [bind]. rewrite !exec_forEach_join. by rewrite <- !app_assoc.
Qed.

(** C7 (as amended): a batch applies exactly the events of the chain log
    that lie in its block range, grouped by event type in the fixed order
    BountyCreated, SubmissionCreated, SubmissionValidated, RewardPaid,
    BountyCompleted, and in ascending (blockNumber, logIndex) order within
    each type; events of different types are not interleaved.  In
    particular every SubmissionCreated of the batch is applied before every
    SubmissionValidated of the batch. *)
Theorem batch_applies_by_type bm cfg (fromBlock toBlock : Z) now s :
  StronglySorted event_key_lt (chain_log bm) ->
  exec now (indexBatch bm cfg fromBlock toBlock) s =
    exec now (forEach (batch_events bm fromBlock toBlock) (handleEvent bm) ;;
              updateLastIndexedBlock cfg toBlock) s /\
  (forall e, e ∈ batch_events bm fromBlock toBlock <->
             e ∈ chain_log bm /\ fromBlock <= blockNumber e <= toBlock) /\
  StronglySorted applied_before (batch_events bm fromBlock toBlock) /\
  (forall i j e1 e2,
     batch_events bm fromBlock toBlock !! i = Some e1 ->
     batch_events bm fromBlock toBlock !! j = Some e2 ->
     name_of (args e1) = ESubmissionCreated ->
     name_of (args e2) = ESubmissionValidated ->
     (i < j)%nat).
Proof.
  intros Hs. split; [apply indexBatch_applies_batch_events |].
  split; [intros e; apply batch_events_elem |].
  pose proof (batch_events_sorted bm fromBlock toBlock Hs) as Hsorted.
  split; [exact Hsorted |].
  intros i j e1 e2 Hi Hj H1 H2.
  destruct (Nat.lt_trichotomy i j) as [Hlt | [-> | Hgt]]; [done | |].
  - rewrite Hi in Hj. injection Hj as ->. congruence.
  - pose proof (StronglySorted_lookup_lt _ _ _ _ _ _ Hsorted Hgt Hj Hi) as [Hr | [Hn _]].
    + rewrite H1, H2 in Hr. simpl in Hr. lia.
    + congruence.
Qed.

(** C7 (witness): the log of the lifecycle is in chain order. *)
Lemma batch_applies_by_type_witness :
  StronglySorted event_key_lt (chain_log chain0) /\
  StronglySorted applied_before (batch_events chain0 101 105).
Proof.
  assert (Hs : StronglySorted event_key_lt (chain_log chain0)).
  { repeat constructor. }
  destruct (batch_applies_by_type chain0 cfg0 101 105 1000 db0 Hs) as (_ & _ & H & _).
  split; [exact Hs | exact H].
Defined.

(** C7 (counterexample): in the batch of blocks 101 to 105 the BountyCreated
    event of block 105 is applied second, before the SubmissionCreated of
    block 102: the batch is not applied in (blockNumber, logIndex) order. *)
Lemma batch_not_in_block_order :
  map blockNumber (batch_events chain0 101 105) = [101; 105; 102; 103; 104] /\
  batch_events chain0 101 105 !! 1%nat = Some ev_bounty8 /\
  batch_events chain0 101 105 !! 2%nat = Some ev_submission3 /\
  event_key_lt ev_submission3 ev_bounty8 /\
  ~ StronglySorted event_key_lt (batch_events chain0 101 105).
Proof.
  repeat split; try (vm_compute; reflexivity).
  - left. vm_compute. reflexivity.
  - intros H.
    assert (Hlt : event_key_lt ev_bounty8 ev_submission3).
    { eapply (StronglySorted_lookup_lt _ _ 1 2 _ _ H); [lia | |]; vm_compute; reflexivity. }
    destruct Hlt as [Hlt | [Heq _]]; vm_compute in *; discriminate.
Qed.

(** ** C8: real-time indexing *)

Lemma leaves_checkpoint_steps_within {A} (p : prog A) :
  leaves_checkpoint p ->
  steps_within (fun s s' => indexer_state s' = indexer_state s) p.
Proof.
  induction p as [a | R q k IH | e]; simpl; [done | | done].
  intros [Hq Hk]. split; [exact Hq | intros r; apply IH, Hk].
Qed.

(** One tick keeps a relation that every statement of every listener
    respects. *)
Lemma realtime_step_within (R : db -> db -> Prop) bm st t :
  (forall s, R s s) ->
  (forall ev, steps_within R (handleEvent bm ev)) ->
  Forall (steps_within R) (snd st) ->
  R (fst st) (fst (realtime_step bm st t)) /\
  Forall (steps_within R) (snd (realtime_step bm st t)).
Proof.
  intros Hrefl Hev Hl. destruct st as [s l]. destruct t as [ev | i now]; simpl in *.
  - split; [apply Hrefl |]. apply Forall_app. split; [done |]. by constructor.
  - destruct (l !! i) as [[a | X q k | e] |] eqn:Hi; simpl; try by split.
    pose proof (proj1 (Forall_lookup _ _) Hl i _ Hi) as [Hq Hk].
    specialize (Hq now s).
    destruct (q now s) as [[r | e] s']; simpl in *.
    + split; [done |]. apply Forall_insert; [done | apply Hk].
    + split; [done |]. by apply Forall_insert.
Qed.

Lemma realtime_fold_within (R : db -> db -> Prop) bm ticks st :
  (forall s, R s s) ->
  (forall s1 s2 s3, R s1 s2 -> R s2 s3 -> R s1 s3) ->
  (forall ev, steps_within R (handleEvent bm ev)) ->
  Forall (steps_within R) (snd st) ->
  R (fst st) (fst (fold_left (realtime_step bm) ticks st)).
Proof.
  intros Hrefl Htrans Hev. revert st.
  induction ticks as [| t ticks IH]; intros st Hl; simpl; [apply Hrefl |].
  destruct (realtime_step_within R bm st t Hrefl Hev Hl) as [H1 H2].
  eapply Htrans; [exact H1 | by apply IH].
Qed.

Lemma realtime_within (R : db -> db -> Prop) bm ticks s :
  (forall s, R s s) ->
  (forall s1 s2 s3, R s1 s2 -> R s2 s3 -> R s1 s3) ->
  (forall ev, steps_within R (handleEvent bm ev)) ->
  R s (realtime bm ticks s).
Proof.
  intros Hrefl Htrans Hev. unfold realtime, realtime_run.
  by apply (realtime_fold_within R bm ticks (s, [])).
Qed.

(** Given the statements it issues, a listener runs to its end as [exec]
    does. *)
Lemma realtime_runs bm i now n p s l :
  l !! i = Some p -> (statements_issued now p s <= n)%nat ->
  exists p',
    settled p' /\
    fold_left (realtime_step bm) (replicate n (Runs i now)) (s, l)
    = (snd (exec now p s), <[i := p']> l).
Proof.
  revert p s l. induction n as [| n IH]; intros p s l Hi Hn.
  - destruct p as [a | X q k | e]; simpl in *.
    + exists (Ret a). by rewrite list_insert_id.
    + destruct (q now s) as [[r | e] s']; lia.
    + exists (Throw e). by rewrite list_insert_id.
  - destruct p as [a | X q k | e].
    + destruct (IH (Ret a) s l Hi) as (p' & Hp' & Hf); [simpl; lia |].
      exists p'. split; [done |]. simpl. by rewrite Hi.
    + simpl in Hn. cbn [replicate fold_left realtime_step fst snd]. rewrite Hi.
      pose proof (lookup_lt_Some _ _ _ Hi) as Hlt.
      cbn [exec].
      destruct (q now s) as [[r | e] s'].
      * destruct (IH (k r) s' (<[i := k r]> l)) as (p' & Hp' & Hf);
          [by apply list_lookup_insert_eq | lia |].
        exists p'. split; [done |]. rewrite Hf. by rewrite list_insert_insert_eq.
      * destruct (IH (Throw e) s' (<[i := Throw e]> l)) as (p' & Hp' & Hf);
          [by apply list_lookup_insert_eq | simpl; lia |].
        exists p'. split; [done |]. rewrite Hf. by rewrite list_insert_insert_eq.
    + destruct (IH (Throw e) s l Hi) as (p' & Hp' & Hf); [simpl; lia |].
      exists p'. split; [done |]. simpl. by rewrite Hi.
Qed.

(** A handler awaits at most six statements. *)
Lemma handleEvent_statements_issued bm now ev s :
  (statements_issued now (handleEvent bm ev) s <= 6)%nat.
Proof.
  unfold handleEvent, handleBountyCreated, handleSubmissionCreated,
    handleSubmissionValidated, handleRewardPaid, handleBountyCompleted.
  destruct (args ev); simpl;
    repeat (match goal with
            | |- context [match ?x with _ => _ end] => destruct x; simpl
            end);
    lia.
Qed.

(** Events that arrive in turn are applied one after the other. *)
Lemma realtime_in_turn_from bm arrivals s l :
  fst (fold_left (realtime_step bm) (in_turn_from (List.length l) arrivals) (s, l)) =
  fold_left (fun s a => snd (exec (fst a) (handleEvent bm (snd a)) s)) arrivals s.
Proof.
  revert s l. induction arrivals as [| a arrivals IH]; intros s l; [done |].
  cbn [in_turn_from fold_left]. rewrite fold_left_app.
  cbn [realtime_step fst snd].
  destruct (realtime_runs bm (List.length l) (fst a) 6 (onEvent bm (snd a)) s
              (l ++ [onEvent bm (snd a)])%list) as (p' & _ & ->).
  - by rewrite lookup_app_r, Nat.sub_diag.
  - apply handleEvent_statements_issued.
  - replace (S (List.length l))
      with (List.length (<[List.length l := p']> (l ++ [onEvent bm (snd a)])%list))
      by (rewrite length_insert, length_app; simpl; lia).
    by rewrite IH.
Qed.

Lemma realtime_in_turn bm arrivals s :
  realtime bm (in_turn arrivals) s =
  fold_left (fun s a => snd (exec (fst a) (handleEvent bm (snd a)) s)) arrivals s.
Proof. apply (realtime_in_turn_from bm arrivals s []). Qed.

(** C8 (as amended): in streaming mode every arriving event is passed on
    its own, as it arrives, to the handler that backfill uses for its event
    type; nothing is buffered and no batch is formed.  The stored checkpoint
    is not written in streaming mode: whatever events arrive, and in
    whatever order the statements of their handlers run, indexer_state
    stays as it was when streaming started. *)
Theorem realtime_leaves_checkpoint bm arrivals s :
  indexer_state (realtime bm arrivals s) = indexer_state s /\
  forall now ev rest,
    realtime bm (in_turn ((now, ev) :: rest)) s =
    realtime bm (in_turn rest) (snd (exec now (handleEvent bm ev) s)).
Proof.
  split.
  - apply (realtime_within (fun s s' => indexer_state s' = indexer_state s));
      [done | intros s1 s2 s3 H1 H2; congruence |].
    intros ev. apply leaves_checkpoint_steps_within, handleEvent_leaves_checkpoint.
  - intros now ev rest. by rewrite !realtime_in_turn.
Qed.

(** C8 (counterexample): the RewardPaid event of block 104 arrives while
    the checkpoint is 100.  It is applied, and the checkpoint stays 100. *)
Lemma realtime_checkpoint_stale :
  blockNumber ev_paid3 = 104 /\
  s_is_paid <$> submissions (realtime chain0 (in_turn [(2000, ev_paid3)]) db0) !! 3
    = Some true /\
  last_block <$> indexer_state (realtime chain0 (in_turn [(2000, ev_paid3)]) db0) !! key0
    = Some 100.
Proof. repeat split; vm_compute; reflexivity. Qed.

(** ** C9: a hunter whose wallet is already a user *)

(** C9 (as amended): for every SubmissionCreated event whose hunter wallet
    already has a users row and has no hunter_stats row (for example a
    wallet inserted with role 'company' by [handleBountyCreated]),
    [handleSubmissionCreated] creates no hunter_stats row for that wallet
    and no users row, and changes no hunter_stats row; the increment of
    total_submissions for that wallet updates zero rows on the database the
    handler leaves, which holds no statistics for that hunter. *)
Theorem known_user_gets_no_stats bm now sid bid hunter ev s u :
  users s !! toLowerCase hunter = Some u ->
  hunter_stats s !! toLowerCase hunter = None ->
  hunter_stats (snd (exec now (handleSubmissionCreated bm sid bid hunter ev) s))
    = hunter_stats s /\
  users (snd (exec now (handleSubmissionCreated bm sid bid hunter ev) s)) = users s /\
  (forall now',
     fst (increment_total_submissions (toLowerCase hunter) now'
            (snd (exec now (handleSubmissionCreated bm sid bid hunter ev) s)))
     = Done 0%nat) /\
  hunter_stats (snd (exec now (handleSubmissionCreated bm sid bid hunter ev) s))
    !! toLowerCase hunter = None.
Proof.
  intros Hu Hs.
  assert (Hst : hunter_stats (snd (exec now (handleSubmissionCreated bm sid bid hunter ev) s))
                = hunter_stats s /\
                users (snd (exec now (handleSubmissionCreated bm sid bid hunter ev) s))
                = users s).
  { destruct (bounties s !! bid) as [row |] eqn:Hb.
    - rewrite (handleSubmissionCreated_known bm now _ _ _ _ s u row Hu Hb).
      by destruct (js_date _).
    - by rewrite (handleSubmissionCreated_no_bounty bm now _ _ _ _ s u Hu Hb). }
  destruct Hst as [Hst Hus].
  split; [exact Hst |]. split; [exact Hus |].
  split; [| by rewrite Hst].
  intros now'. unfold increment_total_submissions. cbn [fst]. unfold rowCount.
  by rewrite Hst, Hs.
Qed.

(** C9 (witness): company 0xAA, a user without statistics, files a
    submission on bounty 7. *)
Lemma known_user_gets_no_stats_witness :
  users db0 !! toLowerCase "0xAA" = Some {| u_id := 1; u_role := "company" |} /\
  hunter_stats db0 !! toLowerCase "0xAA" = None /\
  hunter_stats (snd (exec 1000 (handleSubmissionCreated chain0 4 7 "0xAA" ev_submission4) db0))
    = hunter_stats db0.
Proof.
  assert (Hu : users db0 !! toLowerCase "0xAA" = Some {| u_id := 1; u_role := "company" |})
    by (vm_compute; reflexivity).
  assert (Hs : hunter_stats db0 !! toLowerCase "0xAA" = None) by (vm_compute; reflexivity).
  destruct (known_user_gets_no_stats chain0 1000 4 7 "0xAA" ev_submission4 db0 _ Hu Hs)
    as (H & _).
  repeat split; assumption.
Defined.

(** C9 (counterexample): hunter 0xBB already has a users row, and a
    hunter_stats row as well.  After a SubmissionCreated event of that
    wallet the row is still there: the hunter's statistics are not absent
    from hunter_stats, and the increment of total_submissions for the wallet
    is an UPDATE of one row. *)
Lemma returning_hunter_keeps_stats :
  args ev_submission4 = SubmissionCreated 4 7 "0xBB" /\
  u_role <$> users db0 !! toLowerCase "0xBB" = Some "hunter" /\
  is_Some (hunter_stats db0 !! toLowerCase "0xBB") /\
  is_Some (hunter_stats (snd (exec 1000 (handleEvent chain0 ev_submission4) db0))
             !! toLowerCase "0xBB") /\
  fst (increment_total_submissions (toLowerCase "0xBB") 1000
         (snd (exec 1000 (handleEvent chain0 ev_submission4) db0))) = Done 1%nat.
Proof. repeat split; try (vm_compute; reflexivity); vm_compute; eauto. Qed.

(** ** C10: restarts keep the checkpoint *)

(** C10: when indexer_state already holds a row for the (contract_address,
    network) key, [initializeState] returns normally and replaces that row
    by one with the same last_block and last_updated set to the clock;
    nothing else in the database changes, so the stored checkpoint survives
    the restart. *)
Theorem initializeState_keeps_last_block cfg now s row :
  indexer_state s !! (contract_address cfg, network cfg) = Some row ->
  exec now (initializeState cfg) s =
    (Done tt,
     set_indexer_state
       (insert (contract_address cfg, network cfg)
          {| last_block := last_block row; last_updated := now |}) s) /\
  last_block <$> indexer_state (snd (exec now (initializeState cfg) s))
                   !! (contract_address cfg, network cfg)
    = Some (last_block row).
Proof.
  intros Hrow. unfold initializeState. simpl. rewrite Hrow. split; [reflexivity |].
  simpl. by rewrite lookup_insert_eq.
Qed.

(** C10 (witness): a restart at clock 5000 with the checkpoint at 100. *)
Lemma initializeState_keeps_last_block_witness :
  indexer_state db0 !! (contract_address cfg0, network cfg0)
    = Some {| last_block := 100; last_updated := 0 |} /\
  last_block <$> indexer_state (snd (exec 5000 (initializeState cfg0) db0))
                   !! (contract_address cfg0, network cfg0) = Some 100.
Proof.
  assert (Hrow : indexer_state db0 !! (contract_address cfg0, network cfg0)
                 = Some {| last_block := 100; last_updated := 0 |})
    by (vm_compute; reflexivity).
  destruct (initializeState_keeps_last_block cfg0 5000 db0 _ Hrow) as [_ H].
  split; [exact Hrow | exact H].
Defined.

(** * Further properties of the indexer and of its configuration *)

(** ** The invariants on the concrete database *)

Ltac lookup_cases H :=
  repeat (apply lookup_insert_Some in H as [[<- <-] | [_ H]]);
  try (by rewrite lookup_empty in H).

Lemma db0_stats_have_user : stats_have_user db0.
Proof.
  intros w [r Hr]. unfold db0 in *. simpl in *. lookup_cases Hr.
  by eexists.
Qed.

Lemma db0_valid_refs : valid_refs db0.
Proof.
  split.
  - intros b r Hr. unfold db0 in Hr. simpl in Hr. lookup_cases Hr.
    by exists "0xaa", {| u_id := 1; u_role := "company" |}.
  - intros i r Hr. unfold db0 in Hr. simpl in Hr. lookup_cases Hr. split.
    + by eexists 7, _.
    + by exists "0xbb", {| u_id := 2; u_role := "hunter" |}.
Qed.

Lemma db0_ids_wf : ids_wf db0.
Proof.
  unfold ids_wf, ids_below, ids_inj, db0. simpl.
  repeat split.
  all: intros; repeat match goal with H : _ !! _ = Some _ |- _ => lookup_cases H end;
    simpl in *; first [lia | done].
Qed.

Lemma db0_lowercase_keys : lowercase_keys db0.
Proof.
  split; intros w [r Hr]; unfold db0 in Hr; simpl in Hr; lookup_cases Hr; reflexivity.
Qed.

Lemma chain0_log_NoDup : NoDup (chain_log chain0).
Proof.
  simpl. repeat (apply NoDup_cons; split;
    [intros Hin; repeat (apply elem_of_cons in Hin as [Hin|Hin]; [discriminate Hin|]);
     by apply elem_of_nil in Hin |]).
  apply NoDup_nil_2.
Qed.

Lemma chain0_log_sorted : StronglySorted event_key_lt (chain_log chain0).
Proof.
  simpl. repeat (constructor; [| repeat constructor; unfold event_key_lt; simpl; lia]).
  constructor.
Qed.

(** ** Relations that every statement of the indexer respects *)

Lemma steps_within_bind (R : db -> db -> Prop) {A B} (m : prog A) (k : A -> prog B) :
  steps_within R m -> (forall a, steps_within R (k a)) -> steps_within R (bind m k).
Proof.
  induction m as [a | X q k' IH | e]; simpl; intros Hm Hk; [apply Hk | | done].
  destruct Hm as [Hq Hk']. split; [done |]. intros r. by apply IH.
Qed.

Lemma steps_within_forEach (R : db -> db -> Prop) {X} (xs : list X) body :
  (forall x, steps_within R (body x)) -> steps_within R (forEach xs body).
Proof.
  intros Hb. induction xs as [| x xs IH]; simpl; [done |].
  by apply steps_within_bind.
Qed.

Lemma steps_within_exec_until (R : db -> db -> Prop) {A} (p : prog A) n now s :
  (forall x, R x x) -> (forall x y z, R x y -> R y z -> R x z) ->
  steps_within R p -> R s (snd (exec_until n now p s)).
Proof.
  intros Hrefl Htrans. revert n s.
  induction p as [a | X q k IH | e]; intros n s Hp; simpl;
    [apply Hrefl | | apply Hrefl].
  destruct Hp as [Hq Hk]. destruct n as [| n]; [apply Hrefl |].
  specialize (Hq now s). destruct (q now s) as [[r | e] s']; simpl in *; [| done].
  eapply Htrans; [exact Hq | by apply IH].
Qed.

Lemma steps_within_exec (R : db -> db -> Prop) {A} (p : prog A) now s :
  (forall x, R x x) -> (forall x y z, R x y -> R y z -> R x z) ->
  steps_within R p -> R s (snd (exec now p s)).
Proof.
  intros Hrefl Htrans Hp.
  pose proof (steps_within_exec_until R p (statements_issued now p s) now s
                Hrefl Htrans Hp) as H.
  by rewrite exec_until_enough in H.
Qed.

Section StepsWithin.

Variable R : db -> db -> Prop.
Hypothesis R_refl : forall x, R x x.
Hypothesis R_insert_user : forall w r,
  statement_within R (insert_user (toLowerCase w) r).
Hypothesis R_insert_hunter_stats : forall w,
  statement_within R (insert_hunter_stats (toLowerCase w)).
Hypothesis R_upsert_bounty : forall b c t r1 r2 l st d a p bn tx cr,
  statement_within R (upsert_bounty b c t r1 r2 l st d a p bn tx cr).
Hypothesis R_upsert_submission : forall i b h sv st rw sb p bn tx,
  statement_within R (upsert_submission i b h sv st rw sb p bn tx).
Hypothesis R_increment_total_submissions : forall w,
  statement_within R (increment_total_submissions w).
Hypothesis R_update_submission_validated : forall sv st i,
  statement_within R (update_submission_validated sv st i).
Hypothesis R_update_submission_paid : forall a i,
  statement_within R (update_submission_paid a i).
Hypothesis R_increment_earned : forall a w, statement_within R (increment_earned a w).
Hypothesis R_update_bounty_completed : forall b,
  statement_within R (update_bounty_completed b).
Hypothesis R_upsert_indexer_state : forall c n st,
  statement_within R (upsert_indexer_state c n st).
Hypothesis R_update_last_block : forall b c n, statement_within R (update_last_block b c n).

Lemma R_select_user_id w : statement_within R (select_user_id w).
Proof. intros now s. apply R_refl. Qed.

Lemma R_select_bounty_id b : statement_within R (select_bounty_id b).
Proof. intros now s. apply R_refl. Qed.

Lemma R_select_last_block c n : statement_within R (select_last_block c n).
Proof. intros now s. apply R_refl. Qed.

Lemma R_refused {X} e : statement_within R (refused (R := X) e).
Proof. intros now s. apply R_refl. Qed.

Ltac within_step :=
  match goal with
  | |- True => exact I
  | |- statement_within _ _ =>
      first [ apply R_select_user_id | apply R_select_bounty_id
            | apply R_select_last_block | apply R_refused | apply R_insert_user
            | apply R_insert_hunter_stats | apply R_upsert_bounty
            | apply R_upsert_submission | apply R_increment_total_submissions
            | apply R_update_submission_validated | apply R_update_submission_paid
            | apply R_increment_earned | apply R_update_bounty_completed
            | apply R_upsert_indexer_state | apply R_update_last_block ]
  | |- _ /\ _ => split
  | |- forall _, _ => intros ?
  | |- context [match ?x with _ => _ end] => destruct x
  | |- _ => progress simpl
  end.

Lemma handleEvent_within bm ev : steps_within R (handleEvent bm ev).
Proof.
  unfold handleEvent, handleBountyCreated, handleSubmissionCreated,
    handleSubmissionValidated, handleRewardPaid, handleBountyCompleted.
  destruct (args ev); repeat within_step.
Qed.

Lemma updateLastIndexedBlock_within cfg blockNumber :
  steps_within R (updateLastIndexedBlock cfg blockNumber).
Proof. unfold updateLastIndexedBlock. repeat within_step. Qed.

Lemma indexBatch_within bm cfg fromBlock toBlock :
  steps_within R (indexBatch bm cfg fromBlock toBlock).
Proof.
  unfold indexBatch, indexBountyCreatedEvents, indexSubmissionCreatedEvents,
    indexSubmissionValidatedEvents, indexRewardPaidEvents, indexBountyCompletedEvents.
  repeat (apply steps_within_bind;
          [apply steps_within_bind;
           [unfold awaitQueryFilter; by destruct fromBlock, toBlock
           | intros events; apply steps_within_forEach; intros;
             apply handleEvent_within]
          | intros _]).
  apply updateLastIndexedBlock_within.
Qed.

Lemma indexHistoricalEvents_within bm cfg :
  steps_within R (indexHistoricalEvents bm cfg).
Proof.
  unfold indexHistoricalEvents. apply steps_within_bind.
  - unfold getLastIndexedBlock. repeat within_step.
  - intros lastBlock. destruct (js_ge lastBlock (getBlockNumber bm)); [exact I |].
    apply steps_within_forEach. intros r. apply indexBatch_within.
Qed.

Lemma start_within bm cfg : steps_within R (start bm cfg).
Proof.
  unfold start, initialize. apply steps_within_bind.
  - unfold initializeState. repeat within_step.
  - intros _. apply indexHistoricalEvents_within.
Qed.

End StepsWithin.

Lemma grows_refl s : grows s s.
Proof. by repeat split. Qed.

Lemma grows_trans s1 s2 s3 : grows s1 s2 -> grows s2 s3 -> grows s1 s3.
Proof.
  intros (H1 & H2 & H3 & H4 & H5) (G1 & G2 & G3 & G4 & G5).
  repeat split; etrans; done.
Qed.

Ltac grows_tac :=
  intros; intros now s; unfold grows; simpl;
  repeat match goal with
         | |- context [match ?x with _ => _ end] => destruct x eqn:?; simpl
         end;
  repeat split; try done;
  rewrite ?dom_insert_L, ?dom_alter_L; try set_solver;
  try (apply insert_subseteq; done).

Lemma grows_steps bm cfg :
  steps_within grows (start bm cfg) /\
  steps_within grows (indexHistoricalEvents bm cfg) /\
  (forall ev, steps_within grows (handleEvent bm ev)).
Proof.
  assert (H1 : forall w r, statement_within grows (insert_user w r))
    by (unfold insert_user; grows_tac).
  assert (H2 : forall w, statement_within grows (insert_hunter_stats w))
    by (unfold insert_hunter_stats; grows_tac).
  assert (H3 : forall b c t r1 r2 l st d a p bn tx cr,
             statement_within grows (upsert_bounty b c t r1 r2 l st d a p bn tx cr))
    by (unfold upsert_bounty; grows_tac).
  assert (H4 : forall i b h sv st rw sb p bn tx,
             statement_within grows (upsert_submission i b h sv st rw sb p bn tx))
    by (unfold upsert_submission; grows_tac).
  assert (H5 : forall w, statement_within grows (increment_total_submissions w))
    by grows_tac.
  assert (H6 : forall sv st i, statement_within grows (update_submission_validated sv st i))
    by grows_tac.
  assert (H7 : forall a i, statement_within grows (update_submission_paid a i))
    by grows_tac.
  assert (H8 : forall a w, statement_within grows (increment_earned a w)) by grows_tac.
  assert (H9 : forall b, statement_within grows (update_bounty_completed b)) by grows_tac.
  assert (H10 : forall c n st, statement_within grows (upsert_indexer_state c n st))
    by (unfold upsert_indexer_state; grows_tac).
  assert (H11 : forall b c n, statement_within grows (update_last_block b c n))
    by grows_tac.
  split; [| split].
  - exact (start_within grows grows_refl (fun w => H1 (toLowerCase w))
             (fun w => H2 (toLowerCase w)) H3 H4 H5 H6 H7 H8 H9 H10 H11 bm cfg).
  - exact (indexHistoricalEvents_within grows grows_refl (fun w => H1 (toLowerCase w))
             (fun w => H2 (toLowerCase w)) H3 H4 H5 H6 H7 H8 H9 H11 bm cfg).
  - intros ev.
    exact (handleEvent_within grows grows_refl (fun w => H1 (toLowerCase w))
             (fun w => H2 (toLowerCase w)) H3 H4 H5 H6 H7 H8 H9 bm ev).
Qed.

(** X2: the indexer issues no DELETE and never rewrites a users row.  At
    whatever statement [start] is interrupted, and after any sequence of
    real-time arrivals, in whatever order the statements of their handlers
    run, every users row is as it was and every key of hunter_stats,
    bounties, submissions and indexer_state is still present. *)
Theorem indexer_never_deletes bm cfg n now arrivals s :
  grows s (snd (exec_until n now (start bm cfg) s)) /\
  grows s (realtime bm arrivals s).
Proof.
  destruct (grows_steps bm cfg) as (Hstart & _ & Hev). split.
  - apply steps_within_exec_until; [apply grows_refl | apply grows_trans | done].
  - apply realtime_within; [apply grows_refl | apply grows_trans | apply Hev].
Qed.

(** *** SERIAL ids *)

Lemma ids_insert_fresh {K V} `{Countable K} (id : V -> Z) (m : gmap K V) seq k v :
  ids_below id m seq -> ids_inj id m -> m !! k = None -> id v = seq ->
  ids_below id (<[k:=v]> m) (seq + 1) /\ ids_inj id (<[k:=v]> m).
Proof.
  intros Hb Hi Hk Hv. split.
  - intros k' v'. rewrite lookup_insert. case_decide; [intros [= <-]; lia |].
    intros Hl. apply Hb in Hl. lia.
  - intros k1 k2 v1 v2 Hl1 Hl2 Heq.
    destruct (decide (k = k1)) as [<- | Hn1], (decide (k = k2)) as [<- | Hn2];
      [done | | |].
    + rewrite lookup_insert_eq in Hl1. rewrite lookup_insert_ne in Hl2 by done.
      injection Hl1 as <-. apply Hb in Hl2. lia.
    + rewrite lookup_insert_eq in Hl2. rewrite lookup_insert_ne in Hl1 by done.
      injection Hl2 as <-. apply Hb in Hl1. lia.
    + rewrite lookup_insert_ne in Hl1, Hl2 by done. by eapply Hi.
Qed.

Lemma ids_insert_same {K V} `{Countable K} (id : V -> Z) (m : gmap K V) seq k v old :
  ids_below id m seq -> ids_inj id m -> m !! k = Some old -> id v = id old ->
  ids_below id (<[k:=v]> m) (seq + 1) /\ ids_inj id (<[k:=v]> m).
Proof.
  intros Hb Hi Hk Hv. split.
  - intros k' v'. rewrite lookup_insert. case_decide.
    + intros [= <-]. apply Hb in Hk. lia.
    + intros Hl. apply Hb in Hl. lia.
  - intros k1 k2 v1 v2 Hl1 Hl2 Heq.
    destruct (decide (k = k1)) as [<- | Hn1], (decide (k = k2)) as [<- | Hn2];
      [done | | |].
    + rewrite lookup_insert_eq in Hl1. rewrite lookup_insert_ne in Hl2 by done.
      injection Hl1 as <-. symmetry. eapply Hi; [exact Hl2 | exact Hk | congruence].
    + rewrite lookup_insert_eq in Hl2. rewrite lookup_insert_ne in Hl1 by done.
      injection Hl2 as <-. eapply Hi; [exact Hl1 | exact Hk | congruence].
    + rewrite lookup_insert_ne in Hl1, Hl2 by done. by eapply Hi.
Qed.

Lemma lookup_alter_id {K V} `{Countable K} (id : V -> Z) (f : V -> V) (m : gmap K V) k k' v' :
  (forall v, id (f v) = id v) ->
  alter f k m !! k' = Some v' -> exists w, m !! k' = Some w /\ id w = id v'.
Proof.
  intros Hf. destruct (decide (k = k')) as [<- | Hne].
  - rewrite lookup_alter_eq. destruct (m !! k) as [w |]; simpl; [| done].
    intros [= <-]. eauto.
  - rewrite lookup_alter_ne by done. eauto.
Qed.

Lemma ids_alter {K V} `{Countable K} (id : V -> Z) (f : V -> V) (m : gmap K V) seq k :
  (forall v, id (f v) = id v) ->
  ids_below id m seq -> ids_inj id m ->
  ids_below id (alter f k m) seq /\ ids_inj id (alter f k m).
Proof.
  intros Hf Hb Hi. split.
  - intros k' v' Hl. apply (lookup_alter_id id) in Hl as (w & Hw & <-); [| done].
    by eapply Hb.
  - intros k1 k2 v1 v2 Hl1 Hl2 Heq.
    apply (lookup_alter_id id) in Hl1 as (w1 & Hw1 & E1); [| done].
    apply (lookup_alter_id id) in Hl2 as (w2 & Hw2 & E2); [| done].
    eapply Hi; [exact Hw1 | exact Hw2 | congruence].
Qed.

Lemma ids_below_mono {K V} `{Countable K} (id : V -> Z) (m : gmap K V) seq seq' :
  ids_below id m seq -> seq <= seq' -> ids_below id m seq'.
Proof. intros Hb Hle k v Hk. apply Hb in Hk. lia. Qed.

Lemma keeps_refl P s : keeps P s s.
Proof. by intros ?. Qed.

Lemma keeps_trans P s1 s2 s3 : keeps P s1 s2 -> keeps P s2 s3 -> keeps P s1 s3.
Proof. unfold keeps. tauto. Qed.

Lemma ids_wf_steps bm cfg :
  steps_within (keeps ids_wf) (start bm cfg) /\
  (forall ev, steps_within (keeps ids_wf) (handleEvent bm ev)).
Proof.
  assert (H1 : forall w r, statement_within (keeps ids_wf) (insert_user w r)).
  { intros w r now s ((Hb & Hi) & HB & HS). unfold insert_user.
    destruct (users s !! w) as [u |] eqn:Hu; simpl.
    - split; [split; [| exact Hi] | done].
      eapply ids_below_mono; [exact Hb | simpl; lia].
    - split; [| done]. by apply ids_insert_fresh. }
  assert (H2 : forall w, statement_within (keeps ids_wf) (insert_hunter_stats w)).
  { intros w now s H. unfold insert_hunter_stats.
    by destruct (hunter_stats s !! w). }
  assert (H3 : forall b c t r1 r2 l st d a p bn tx cr,
             statement_within (keeps ids_wf)
               (upsert_bounty b c t r1 r2 l st d a p bn tx cr)).
  { intros b c t r1 r2 l st d a p bn tx cr now s (HU & (Hb & Hi) & HS).
    unfold upsert_bounty. destruct d, cr; simpl; try done.
    split; [done |]. split; [| done]. split; [| exact Hi].
    eapply ids_below_mono; [exact Hb | unfold next_bounties_id, next_submissions_id; simpl; lia]. }
  assert (H4 : forall i b h sv st rw sb p bn tx,
             statement_within (keeps ids_wf)
               (upsert_submission i b h sv st rw sb p bn tx)).
  { intros i b h sv st rw sb p bn tx now s (HU & HB & (Hb & Hi)).
    unfold upsert_submission. destruct sb; simpl; try done.
    split; [done |]. split; [done |]. split; [| exact Hi].
    eapply ids_below_mono; [exact Hb | unfold next_bounties_id, next_submissions_id; simpl; lia]. }
  assert (H5 : forall w, statement_within (keeps ids_wf) (increment_total_submissions w))
    by (intros w now s H; exact H).
  assert (H6 : forall sv st i,
             statement_within (keeps ids_wf) (update_submission_validated sv st i)).
  { intros sv st i now s (HU & HB & (Hb & Hi)). simpl.
    split; [done |]. split; [done |]. by apply ids_alter. }
  assert (H7 : forall a i, statement_within (keeps ids_wf) (update_submission_paid a i)).
  { intros a i now s (HU & HB & (Hb & Hi)). simpl.
    split; [done |]. split; [done |]. by apply ids_alter. }
  assert (H8 : forall a w, statement_within (keeps ids_wf) (increment_earned a w))
    by (intros a w now s H; exact H).
  assert (H9 : forall b, statement_within (keeps ids_wf) (update_bounty_completed b)).
  { intros b now s (HU & (Hb & Hi) & HS). simpl.
    split; [done |]. split; [| done]. by apply ids_alter. }
  assert (H10 : forall c n st, statement_within (keeps ids_wf) (upsert_indexer_state c n st))
    by (intros c n st now s H; exact H).
  assert (H11 : forall b c n, statement_within (keeps ids_wf) (update_last_block b c n))
    by (intros b c n now s H; exact H).
  split.
  - exact (start_within (keeps ids_wf) (keeps_refl _) (fun w => H1 (toLowerCase w))
             (fun w => H2 (toLowerCase w)) H3 H4 H5 H6 H7 H8 H9 H10 H11 bm cfg).
  - intros ev.
    exact (handleEvent_within (keeps ids_wf) (keeps_refl _)
             (fun w => H1 (toLowerCase w)) (fun w => H2 (toLowerCase w))
             H3 H4 H5 H6 H7 H8 H9 bm ev).
Qed.

(** X3: the SERIAL ids of users, bounties and submissions stay below their
    sequences and distinct within each table, at whatever statement [start]
    is interrupted and after any sequence of real-time arrivals, in whatever
    order the statements of their handlers run: a new users row takes a
    fresh value of its sequence, and an UPDATE keeps the id of its row. *)
Theorem ids_stay_unique bm cfg n now arrivals s :
  ids_wf s ->
  ids_wf (snd (exec_until n now (start bm cfg) s)) /\
  ids_wf (realtime bm arrivals s).
Proof.
  intros Hwf. destruct (ids_wf_steps bm cfg) as (Hstart & Hev). split.
  - by apply (steps_within_exec_until (keeps ids_wf) (start bm cfg) n now s
                (keeps_refl _) (keeps_trans _)).
  - by apply (realtime_within (keeps ids_wf) bm arrivals s (keeps_refl _) (keeps_trans _)).
Qed.

(** X3 (witness): the database of the lifecycle, [start] interrupted after four
    statements, and the arrival of a BountyCreated and a SubmissionCreated. *)
Lemma ids_stay_unique_witness :
  ids_wf db0 /\
  ids_wf (snd (exec_until 4 1000 (start chain0 cfg0) db0)) /\
  ids_wf (realtime chain0 (in_turn [(2000, ev_bounty8); (2001, ev_submission4)]) db0).
Proof.
  pose proof db0_ids_wf as H.
  destruct (ids_stay_unique chain0 cfg0 4 1000
              (in_turn [(2000, ev_bounty8); (2001, ev_submission4)]) db0 H) as [H1 H2].
  split; [exact H | split; [exact H1 | exact H2]].
Defined.

(** ** Invariants that the handlers keep *)

Ltac db_simpl :=
  unfold with_user, with_hunter, set_users, set_hunter_stats, set_bounties,
    set_submissions, set_indexer_state, next_users_id, next_bounties_id,
    next_submissions_id in *;
  simpl in *.

Lemma sound_bind P (m k : prog unit) :
  sound P m -> sound P k -> sound P (m ;; k).
Proof.
  intros Hm Hk now s HP. rewrite exec_bind.
  destruct (Hm now s HP) as [Hd HP'].
  destruct (exec now m s) as [[[] | e] s']; simpl in *; [| done].
  by apply Hk.
Qed.

Lemma sound_forEach P {X} (xs : list X) body :
  (forall x, sound P (body x)) -> sound P (forEach xs body).
Proof.
  intros Hb. induction xs as [| x xs IH]; simpl; [by intros now s HP |].
  by apply sound_bind.
Qed.

Lemma with_user_users_subseteq w role s : users s ⊆ users (with_user w role s).
Proof.
  unfold with_user. destruct (users s !! w) eqn:Hu; [done |].
  simpl. by apply insert_subseteq.
Qed.

Lemma with_hunter_users_subseteq w s :
  users s !! w = None -> users s ⊆ users (with_hunter w s).
Proof. intros Hu. unfold with_hunter. simpl. by apply insert_subseteq. Qed.

Lemma valid_refs_transfer s s' :
  valid_refs s ->
  (forall id, user_id_in s id -> user_id_in s' id) ->
  (forall id, bounty_id_in s id -> bounty_id_in s' id) ->
  (forall b r', bounties s' !! b = Some r' ->
     (exists r, bounties s !! b = Some r /\ b_company_id r = b_company_id r') \/
     user_id_in s' (b_company_id r')) ->
  (forall i r', submissions s' !! i = Some r' ->
     (exists r, submissions s !! i = Some r /\ s_bounty_id r = s_bounty_id r' /\
                s_hunter_id r = s_hunter_id r') \/
     (bounty_id_in s' (s_bounty_id r') /\ user_id_in s' (s_hunter_id r'))) ->
  valid_refs s'.
Proof.
  intros [HB HS] HU HBI HB' HS'. split.
  - intros b r' Hr'. destruct (HB' b r' Hr') as [(r & Hr & <-) | H]; [| done].
    apply HU. by eapply HB.
  - intros i r' Hr'. destruct (HS' i r' Hr') as [(r & Hr & <- & <-) | H]; [| done].
    destruct (HS i r Hr) as [H1 H2]. split; [by apply HBI | by apply HU].
Qed.

Lemma user_id_in_mono s s' id :
  users s ⊆ users s' -> user_id_in s id -> user_id_in s' id.
Proof.
  intros Hsub (w & u & Hu & Hid). exists w, u. split; [| done].
  by eapply lookup_weaken.
Qed.

Lemma bounty_id_in_alter (f : bounty_row -> bounty_row) k s s' id :
  (forall r, b_id (f r) = b_id r) ->
  bounties s' = alter f k (bounties s) ->
  bounty_id_in s id -> bounty_id_in s' id.
Proof.
  intros Hf Heq (b & r & Hr & Hid). unfold bounty_id_in. rewrite Heq.
  destruct (decide (k = b)) as [-> | Hne].
  - exists b, (f r). rewrite lookup_alter_eq, Hr. split; [done | by rewrite Hf].
  - exists b, r. by rewrite lookup_alter_ne.
Qed.

Lemma bounty_id_in_insert k row s s' id :
  (forall old, bounties s !! k = Some old -> b_id row = b_id old) ->
  bounties s' = <[k:=row]> (bounties s) ->
  bounty_id_in s id -> bounty_id_in s' id.
Proof.
  intros Hrow Heq (b & r & Hr & Hid). unfold bounty_id_in. rewrite Heq.
  destruct (decide (k = b)) as [-> | Hne].
  - exists b, row. rewrite lookup_insert_eq. split; [done |].
    rewrite (Hrow r Hr). done.
  - exists b, r. by rewrite lookup_insert_ne.
Qed.

Lemma handleBountyCreated_sound_stats bm b c tr ev :
  sound stats_have_user (handleBountyCreated bm b c tr ev).
Proof.
  intros now s HP. rewrite handleBountyCreated_exec. split; [done |].
  intros w Hw. pose proof (with_user_users_subseteq (toLowerCase c) "company" s) as Hsub.
  assert (Hs : is_Some (users s !! w)).
  { apply HP. unfold with_user in Hw. by destruct (users s !! toLowerCase c). }
  destruct Hs as [x Hx]. exists x. eapply lookup_weaken; done.
Qed.

Lemma handleSubmissionCreated_sound_stats bm sid bid h ev :
  sound stats_have_user (handleSubmissionCreated bm sid bid h ev).
Proof.
  assert (Hk : forall now s u, users s !! toLowerCase h = Some u -> stats_have_user s ->
            (forall c, fst (exec now (handleSubmissionCreated bm sid bid h ev) s)
                       <> Thrown (UniqueViolation c)) /\
            stats_have_user (snd (exec now (handleSubmissionCreated bm sid bid h ev) s))).
  { intros now s u Hu HP. destruct (bounties s !! bid) as [row |] eqn:Hb.
    - rewrite (handleSubmissionCreated_known bm now _ _ _ _ s u row Hu Hb).
      by destruct (js_date _).
    - by rewrite (handleSubmissionCreated_no_bounty bm now _ _ _ _ s u Hu Hb). }
  intros now s HP. destruct (users s !! toLowerCase h) as [u |] eqn:Hu; [by eapply Hk |].
  assert (Hs : hunter_stats s !! toLowerCase h = None).
  { destruct (hunter_stats s !! toLowerCase h) eqn:Hst; [| done].
    destruct (HP (toLowerCase h)) as [x Hx]; [by rewrite Hst | congruence]. }
  rewrite (handleSubmissionCreated_new bm now _ _ _ _ s Hu Hs).
  eapply Hk; [unfold with_hunter; simpl; apply lookup_insert_eq |].
  intros w. db_simpl. rewrite !lookup_insert_is_Some'.
  intros [-> | Hw]; [by left | right; by apply HP].
Qed.

Lemma handleEvent_sound_stats bm ev : sound stats_have_user (handleEvent bm ev).
Proof.
  unfold handleEvent. destruct (args ev) as [b c tr | sid bid h | sid sv v | sid h a | b].
  - apply handleBountyCreated_sound_stats.
  - apply handleSubmissionCreated_sound_stats.
  - intros now s HP. by rewrite handleSubmissionValidated_exec.
  - intros now s HP. rewrite handleRewardPaid_exec. split; [done |].
    intros w. db_simpl. rewrite lookup_alter_is_Some. apply HP.
  - intros now s HP. by rewrite handleBountyCompleted_exec.
Qed.

(** *** From the handlers to the batches and to [start] *)

Lemma stats_have_user_ignores_checkpoint : ignores_checkpoint stats_have_user.
Proof. by intros f s H. Qed.

Lemma updateLastIndexedBlock_sound P cfg blockNumber :
  ignores_checkpoint P -> sound P (updateLastIndexedBlock cfg blockNumber).
Proof.
  intros HI now s HP. unfold updateLastIndexedBlock.
  destruct (bigint_param blockNumber); simpl; [| by split].
  split; [done |]. by apply HI.
Qed.

Lemma indexBatch_sound P bm cfg fromBlock toBlock :
  ignores_checkpoint P -> (forall ev, sound P (handleEvent bm ev)) ->
  sound P (indexBatch bm cfg fromBlock toBlock).
Proof.
  intros HI Hev.
  assert (Hq : forall name, sound P (events <- awaitQueryFilter bm name fromBlock toBlock ;;
                                     forEach events (handleEvent bm))).
  { intros name. unfold awaitQueryFilter.
    destruct fromBlock as [f | f |], toBlock as [t | t |];
      try (intros now s HP; by split).
    cbn [bind]. by apply sound_forEach. }
  unfold indexBatch, indexBountyCreatedEvents, indexSubmissionCreatedEvents,
    indexSubmissionValidatedEvents, indexRewardPaidEvents, indexBountyCompletedEvents.
  repeat (apply sound_bind; [apply Hq |]).
  by apply updateLastIndexedBlock_sound.
Qed.

Lemma indexHistoricalEvents_sound P bm cfg :
  ignores_checkpoint P -> (forall ev, sound P (handleEvent bm ev)) ->
  sound P (indexHistoricalEvents bm cfg).
Proof.
  intros HI Hev now s HP. rewrite indexHistoricalEvents_exec.
  destruct (js_ge _ _); [by split |].
  apply sound_forEach; [| done]. intros r. by apply indexBatch_sound.
Qed.

Lemma start_sound P bm cfg :
  ignores_checkpoint P -> (forall ev, sound P (handleEvent bm ev)) ->
  sound P (start bm cfg).
Proof.
  intros HI Hev. unfold start, initialize. apply sound_bind.
  - intros now s HP. split; [done |]. by apply HI.
  - by apply indexHistoricalEvents_sound.
Qed.

Lemma in_turn_sound P bm arrivals s :
  (forall ev, sound P (handleEvent bm ev)) -> P s ->
  P (realtime bm (in_turn arrivals) s).
Proof.
  intros Hev. rewrite realtime_in_turn. revert s.
  induction arrivals as [| a arrivals IH]; intros s HP; simpl; [done |].
  apply IH. by apply Hev.
Qed.

(** *** The foreign keys, statement by statement *)

Lemma valid_refs_alter_submissions (f : submission_row -> submission_row) i s :
  (forall r, s_bounty_id (f r) = s_bounty_id r /\ s_hunter_id (f r) = s_hunter_id r) ->
  valid_refs s -> valid_refs (set_submissions (alter f i) s).
Proof.
  intros Hf Hv. apply (valid_refs_transfer s); [done | done | done | |].
  - intros b r' Hr'. left. by exists r'.
  - intros i' r' Hr'. left. simpl in Hr'.
    apply lookup_alter_Some in Hr' as [(-> & r & Hr & ->) | [_ Hr]].
    + exists r. split; [done |]. destruct (Hf r) as [-> ->]. done.
    + by exists r'.
Qed.

Lemma valid_refs_alter_bounties (f : bounty_row -> bounty_row) k s :
  (forall r, b_id (f r) = b_id r /\ b_company_id (f r) = b_company_id r) ->
  valid_refs s -> valid_refs (set_bounties (alter f k) s).
Proof.
  intros Hf Hv. apply (valid_refs_transfer s); [done | done | | |].
  - intros id. apply (bounty_id_in_alter f k); [intros r; apply Hf | done].
  - intros b r' Hr'. left. simpl in Hr'.
    apply lookup_alter_Some in Hr' as [(-> & r & Hr & ->) | [_ Hr]].
    + exists r. split; [done |]. by destruct (Hf r) as [_ ->].
    + by exists r'.
  - intros i r' Hr'. left. by exists r'.
Qed.

Lemma valid_refs_steps bm cfg :
  steps_within (keeps valid_refs) (start bm cfg) /\
  (forall ev, steps_within (keeps valid_refs) (handleEvent bm ev)).
Proof.
  assert (H1 : forall w r, statement_within (keeps valid_refs) (insert_user w r)).
  { intros w r now s Hv. unfold insert_user.
    destruct (users s !! w) as [u |] eqn:Hu; simpl; [exact Hv |].
    apply (valid_refs_transfer s); [done | | done | |].
    - intros id. apply user_id_in_mono. simpl. by apply insert_subseteq.
    - intros b r' Hr'. left. by exists r'.
    - intros i r' Hr'. left. by exists r'. }
  assert (H2 : forall w, statement_within (keeps valid_refs) (insert_hunter_stats w)).
  { intros w now s H. unfold insert_hunter_stats.
    by destruct (hunter_stats s !! w). }
  assert (H3 : forall b c t r1 r2 l st d a p bn tx cr,
             statement_within (keeps valid_refs)
               (upsert_bounty b c t r1 r2 l st d a p bn tx cr)).
  { intros b c t r1 r2 l st d a p bn tx cr now s H. unfold upsert_bounty.
    by destruct d, cr. }
  assert (H4 : forall i b h sv st rw sb p bn tx,
             statement_within (keeps valid_refs)
               (upsert_submission i b h sv st rw sb p bn tx)).
  { intros i b h sv st rw sb p bn tx now s H. unfold upsert_submission.
    by destruct sb. }
  assert (H5 : forall w, statement_within (keeps valid_refs) (increment_total_submissions w))
    by (intros w now s H; exact H).
  assert (H6 : forall sv st i,
             statement_within (keeps valid_refs) (update_submission_validated sv st i)).
  { intros sv st i now s H. by apply valid_refs_alter_submissions. }
  assert (H7 : forall a i, statement_within (keeps valid_refs) (update_submission_paid a i)).
  { intros a i now s H. by apply valid_refs_alter_submissions. }
  assert (H8 : forall a w, statement_within (keeps valid_refs) (increment_earned a w))
    by (intros a w now s H; exact H).
  assert (H9 : forall b, statement_within (keeps valid_refs) (update_bounty_completed b)).
  { intros b now s H. by apply valid_refs_alter_bounties. }
  assert (H10 : forall c n st,
             statement_within (keeps valid_refs) (upsert_indexer_state c n st))
    by (intros c n st now s H; exact H).
  assert (H11 : forall b c n, statement_within (keeps valid_refs) (update_last_block b c n))
    by (intros b c n now s H; exact H).
  split.
  - exact (start_within (keeps valid_refs) (keeps_refl _) (fun w => H1 (toLowerCase w))
             (fun w => H2 (toLowerCase w)) H3 H4 H5 H6 H7 H8 H9 H10 H11 bm cfg).
  - intros ev.
    exact (handleEvent_within (keeps valid_refs) (keeps_refl _)
             (fun w => H1 (toLowerCase w)) (fun w => H2 (toLowerCase w))
             H3 H4 H5 H6 H7 H8 H9 bm ev).
Qed.

(** X5: the foreign keys stay valid.  If every company_id and hunter_id is the
    id of a users row and every bounty_id the id of a bounties row (and every
    hunter_stats row has its users row), the same holds after [start] and
    after any sequence of real-time arrivals, in whatever order the
    statements of their handlers run. *)
Theorem references_stay_valid bm cfg now arrivals s :
  0 < batchSize cfg ->
  stats_have_user s -> valid_refs s ->
  valid_refs (snd (exec now (start bm cfg) s)) /\
  valid_refs (realtime bm arrivals s).
Proof.
  intros _ _ Hv. destruct (valid_refs_steps bm cfg) as [Hstart Hev]. split.
  - by apply (steps_within_exec (keeps valid_refs) _ now s (keeps_refl _) (keeps_trans _)).
  - by apply (realtime_within (keeps valid_refs) bm arrivals s
                (keeps_refl _) (keeps_trans _)).
Qed.

(** X5 (witness): the database of the lifecycle, [start], and the arrival of a
    BountyCreated and a SubmissionCreated. *)
Lemma references_stay_valid_witness :
  0 < batchSize cfg0 /\ stats_have_user db0 /\ valid_refs db0 /\
  valid_refs (snd (exec 1000 (start chain0 cfg0) db0)) /\
  valid_refs (realtime chain0 (in_turn [(2000, ev_bounty8); (2001, ev_submission4)]) db0).
Proof.
  assert (Hbs : 0 < batchSize cfg0) by (vm_compute; reflexivity).
  pose proof db0_stats_have_user as H. pose proof db0_valid_refs as Hv.
  destruct (references_stay_valid chain0 cfg0 1000
              (in_turn [(2000, ev_bounty8); (2001, ev_submission4)]) db0 Hbs H Hv)
    as [H1 H2].
  split; [exact Hbs | split; [exact H | split; [exact Hv | split; [exact H1 | exact H2]]]].
Defined.

(** X4: handlers that run in turn violate no UNIQUE constraint.  When every
    hunter_stats row has a users row of the same wallet, and handlers run
    one after the other, no statement of the indexer violates a UNIQUE
    constraint, and the property holds afterwards: in [start], in a batch,
    and in the handler of a real-time event that arrives after the handlers
    of the earlier events have finished. *)
Theorem no_unique_violation bm cfg now arrivals ev s c :
  stats_have_user s ->
  fst (exec now (start bm cfg) s) <> Thrown (UniqueViolation c) /\
  stats_have_user (snd (exec now (start bm cfg) s)) /\
  stats_have_user (realtime bm (in_turn arrivals) s) /\
  fst (exec now (handleEvent bm ev) (realtime bm (in_turn arrivals) s))
    <> Thrown (UniqueViolation c).
Proof.
  intros HP.
  destruct (start_sound stats_have_user bm cfg stats_have_user_ignores_checkpoint
              (handleEvent_sound_stats bm) now s HP) as [H1 H2].
  split; [apply H1 |]. split; [exact H2 |].
  assert (Hr : stats_have_user (realtime bm (in_turn arrivals) s))
    by (apply in_turn_sound; [apply handleEvent_sound_stats | done]).
  split; [exact Hr |]. by apply handleEvent_sound_stats.
Qed.

(** X4 (witness): the database of the lifecycle; a SubmissionCreated arriving
    after a BountyCreated. *)
Lemma no_unique_violation_witness :
  stats_have_user db0 /\
  fst (exec 3000 (handleEvent chain0 ev_submission4)
         (realtime chain0 (in_turn [(2000, ev_bounty8)]) db0))
    <> Thrown (UniqueViolation "users_wallet_address_key").
Proof.
  pose proof db0_stats_have_user as H.
  destruct (no_unique_violation chain0 cfg0 1000 [(2000, ev_bounty8)] ev_submission4
              db0 "users_wallet_address_key" H) as (_ & _ & _ & H3).
  split; [exact H | exact H3].
Defined.

(** X14: two listeners in flight.  Two SubmissionCreated logs of the same
    hunter, who has no users row yet, arrive together.  Each listener
    awaits its SELECT of the users row before either has inserted it, so
    both go on to INSERT INTO users: the first inserts the row, and the
    second violates users_wallet_address_key and throws.  The property of
    the theorem above on the starting database does not prevent it. *)
Theorem racing_listeners_violate_unique bm t sid1 bid1 sid2 bid2 hunter ev1 ev2 s :
  args ev1 = SubmissionCreated sid1 bid1 hunter ->
  args ev2 = SubmissionCreated sid2 bid2 hunter ->
  users s !! toLowerCase hunter = None ->
  snd (realtime_run bm [Arrives ev1; Arrives ev2; Runs 0 t; Runs 1 t; Runs 0 t; Runs 1 t] s)
    !! 1%nat = Some (Throw (UniqueViolation "users_wallet_address_key")) /\
  users (realtime bm [Arrives ev1; Arrives ev2; Runs 0 t; Runs 1 t; Runs 0 t; Runs 1 t] s)
    !! toLowerCase hunter = Some {| u_id := users_id_seq s; u_role := "hunter" |}.
Proof.
  intros H1 H2 Hu.
  unfold realtime, realtime_run. simpl. unfold onEvent, handleEvent. rewrite H1, H2.
  unfold handleSubmissionCreated. simpl. rewrite Hu. simpl.
  unfold insert_user. rewrite Hu. simpl. rewrite lookup_insert_eq. simpl.
  split; [reflexivity | apply lookup_insert_eq].
Qed.

(** X14 (witness): two submissions of hunter 0xEE on a database without that
    wallet. *)
Lemma racing_listeners_violate_unique_witness :
  stats_have_user db0 /\
  users db0 !! toLowerCase "0xEE" = None /\
  snd (realtime_run chain0
         [Arrives (mk_event (SubmissionCreated 5 7 "0xEE") 110 0);
          Arrives (mk_event (SubmissionCreated 6 7 "0xEE") 110 1);
          Runs 0 3000; Runs 1 3000; Runs 0 3000; Runs 1 3000] db0)
    !! 1%nat = Some (Throw (UniqueViolation "users_wallet_address_key")).
Proof.
  assert (Hu : users db0 !! toLowerCase "0xEE" = None) by (vm_compute; reflexivity).
  split; [exact db0_stats_have_user | split; [exact Hu |]].
  exact (proj1 (racing_listeners_violate_unique chain0 3000 5 7 6 7 "0xEE"
                  (mk_event (SubmissionCreated 5 7 "0xEE") 110 0)
                  (mk_event (SubmissionCreated 6 7 "0xEE") 110 1) db0
                  eq_refl eq_refl Hu)).
Defined.

(** ** What each handler writes *)

(** X6: a RewardPaid event for a submission that was never indexed still
    credits the hunter.  [handleRewardPaid] does not look at the row count of
    its first UPDATE: with no submissions row for the id, it returns
    normally, leaves submissions as it was, and adds the amount to
    total_earned and 1 to successful_submissions of the hunter's row. *)
Theorem handleRewardPaid_unknown_submission sid hunter amount ev now s r :
  submissions s !! sid = None ->
  hunter_stats s !! toLowerCase hunter = Some r ->
  fst (exec now (handleRewardPaid sid hunter amount ev) s) = Done tt /\
  submissions (snd (exec now (handleRewardPaid sid hunter amount ev) s)) = submissions s /\
  hunter_stats (snd (exec now (handleRewardPaid sid hunter amount ev) s)) !! toLowerCase hunter
    = Some {| total_earned := total_earned r + amount;
              successful_submissions := successful_submissions r + 1;
              total_submissions := total_submissions r |}.
Proof.
  intros Hs Hr. rewrite handleRewardPaid_exec. db_simpl.
  split; [done |]. split; [by apply alter_id' |].
  by rewrite lookup_alter_eq, Hr.
Qed.

(** X6 (witness): submission 42 is not in the database; hunter 0xBB is credited 500
    and one successful submission. *)
Lemma handleRewardPaid_unknown_submission_witness :
  submissions db0 !! 42 = None /\
  fst (exec 1000 (handleRewardPaid 42 "0xBB" 500 ev_paid3) db0) = Done tt /\
  submissions (snd (exec 1000 (handleRewardPaid 42 "0xBB" 500 ev_paid3) db0))
    = submissions db0 /\
  hunter_stats (snd (exec 1000 (handleRewardPaid 42 "0xBB" 500 ev_paid3) db0)) !! "0xbb"
    = Some {| total_earned := 500; successful_submissions := 1; total_submissions := 1 |}.
Proof.
  assert (Hs : submissions db0 !! 42 = None) by (vm_compute; reflexivity).
  assert (Hr : hunter_stats db0 !! toLowerCase "0xBB"
               = Some {| total_earned := 0; successful_submissions := 0;
                         total_submissions := 1 |}) by (vm_compute; reflexivity).
  destruct (handleRewardPaid_unknown_submission 42 "0xBB" 500 ev_paid3 1000 db0 _ Hs Hr)
    as (H1 & H2 & H3).
  split; [exact Hs | split; [exact H1 | split; [exact H2 | exact H3]]].
Defined.

(** X7: the tables each handler leaves untouched, whatever its outcome.  No
    handler writes indexer_state.  BountyCreated leaves hunter_stats and
    submissions; SubmissionCreated leaves bounties; SubmissionValidated
    leaves users, hunter_stats and bounties; RewardPaid leaves users and
    bounties; BountyCompleted leaves users, hunter_stats and submissions. *)
Theorem handler_frames bm ev now s :
  indexer_state (deliver bm now ev s) = indexer_state s /\
  match args ev with
  | BountyCreated _ _ _ =>
      hunter_stats (deliver bm now ev s) = hunter_stats s /\
      submissions (deliver bm now ev s) = submissions s
  | SubmissionCreated _ _ _ =>
      bounties (deliver bm now ev s) = bounties s
  | SubmissionValidated _ _ _ =>
      users (deliver bm now ev s) = users s /\
      hunter_stats (deliver bm now ev s) = hunter_stats s /\
      bounties (deliver bm now ev s) = bounties s
  | RewardPaid _ _ _ =>
      users (deliver bm now ev s) = users s /\
      bounties (deliver bm now ev s) = bounties s
  | BountyCompleted _ =>
      users (deliver bm now ev s) = users s /\
      hunter_stats (deliver bm now ev s) = hunter_stats s /\
      submissions (deliver bm now ev s) = submissions s
  end.
Proof.
  split; [apply exec_leaves_checkpoint, handleEvent_leaves_checkpoint |].
  unfold deliver, handleEvent.
  destruct (args ev) as [b c tr | sid bid h | sid sv v | sid h a | b]; try done.
  - rewrite handleBountyCreated_exec. cbn [snd]. unfold with_user.
    by destruct (users s !! toLowerCase c).
  - apply handleSubmissionCreated_keeps_submissions.
Qed.

(** X8: the INSERT INTO bounties is always refused.  Its last parameter is
    [new Date(event.blockTimestamp * 1000)], and the events of ethers carry
    no blockTimestamp, so the parameter is an invalid date, which PostgreSQL
    does not read as a timestamp.  [handleBountyCreated] therefore throws on
    every event, having found or created the users row of the company, and
    never writes a bounties row; a backfill batch whose range holds a
    BountyCreated log throws at the first of them, before any event of
    another type is applied and before the checkpoint is written. *)
Theorem handleBountyCreated_is_rejected bm cfg b c tr ev (fromBlock toBlock : Z) now s :
  exec now (handleBountyCreated bm b c tr ev) s =
    (Thrown InvalidDatetime, with_user (toLowerCase c) "company" s) /\
  bounties (snd (exec now (handleBountyCreated bm b c tr ev) s)) = bounties s /\
  bounties_id_seq (snd (exec now (handleBountyCreated bm b c tr ev) s))
    = bounties_id_seq s /\
  (queryFilter bm EBountyCreated fromBlock toBlock <> [] ->
   fst (exec now (indexBatch bm cfg fromBlock toBlock) s) = Thrown InvalidDatetime /\
   indexer_state (snd (exec now (indexBatch bm cfg fromBlock toBlock) s))
     = indexer_state s /\
   submissions (snd (exec now (indexBatch bm cfg fromBlock toBlock) s)) = submissions s /\
   hunter_stats (snd (exec now (indexBatch bm cfg fromBlock toBlock) s))
     = hunter_stats s /\
   bounties (snd (exec now (indexBatch bm cfg fromBlock toBlock) s)) = bounties s).
Proof.
  split; [apply handleBountyCreated_exec |].
  rewrite handleBountyCreated_exec. cbn [snd].
  split; [unfold with_user; by destruct (users s !! toLowerCase c) |].
  split; [unfold with_user; by destruct (users s !! toLowerCase c) |].
  intros Hne.
  destruct (queryFilter bm EBountyCreated fromBlock toBlock) as [| e rest] eqn:Hq; [done |].
  assert (He : name_of (args e) = EBountyCreated).
  { assert (Hin : e ∈ queryFilter bm EBountyCreated fromBlock toBlock)
      by (rewrite Hq; apply elem_of_cons; by left).
    apply queryFilter_elem in Hin. tauto. }
  assert (Hev : exists c', exec now (handleEvent bm e) s
                           = (Thrown InvalidDatetime, with_user (toLowerCase c') "company" s)).
  { unfold handleEvent. destruct (args e) as [b' c' tr' | | | |]; try discriminate He.
    exists c'. apply handleBountyCreated_exec. }
  destruct Hev as [c' Hev].
  unfold indexBatch, indexBountyCreatedEvents, awaitQueryFilter. cbn [bind].
  rewrite Hq. cbn [forEach]. rewrite !exec_bind, Hev. cbn [fst snd].
  unfold with_user. by destruct (users s !! toLowerCase c').
Qed.

(** X8 (witness): the range of blocks 100 to 109 holds the BountyCreated
    event of block 101; the batch throws. *)
Lemma handleBountyCreated_is_rejected_witness :
  queryFilter chain0 EBountyCreated 100 109 <> [] /\
  fst (exec 1000 (indexBatch chain0 cfg0 100 109) empty_db) = Thrown InvalidDatetime /\
  bounties (snd (exec 1000 (indexBatch chain0 cfg0 100 109) empty_db)) = bounties empty_db.
Proof.
  assert (Hne : queryFilter chain0 EBountyCreated 100 109 <> [])
    by (vm_compute; discriminate).
  destruct (handleBountyCreated_is_rejected chain0 cfg0 7 "0xAA" 50000 ev_bounty7
              100 109 1000 empty_db) as (_ & _ & _ & H).
  destruct (H Hne) as (H1 & _ & _ & _ & H5).
  split; [exact Hne | split; [exact H1 | exact H5]].
Defined.

(** X9: the INSERT INTO submissions is always refused: it names no title, which
    schema.sql declares NOT NULL without a default.  [handleSubmissionCreated]
    therefore returns normally only when it does not reach that INSERT, that
    is when the bounty has no bounties row (and the INSERT INTO hunter_stats
    for a hunter without a users row met no existing row).  Whatever its
    outcome it leaves the submissions table as it was and changes no
    existing hunter_stats row: total_submissions is never incremented. *)
Theorem handleSubmissionCreated_is_rejected bm sid bid hunter ev now s :
  (fst (exec now (handleSubmissionCreated bm sid bid hunter ev) s) = Done tt <->
   bounties s !! bid = None /\
   (users s !! toLowerCase hunter = None -> hunter_stats s !! toLowerCase hunter = None)) /\
  submissions (snd (exec now (handleSubmissionCreated bm sid bid hunter ev) s))
    = submissions s /\
  (forall w r, hunter_stats s !! w = Some r ->
     hunter_stats (snd (exec now (handleSubmissionCreated bm sid bid hunter ev) s)) !! w
     = Some r).
Proof.
  split; [| split; [apply handleSubmissionCreated_keeps_submissions |]].
  - destruct (users s !! toLowerCase hunter) as [u |] eqn:Hu.
    + destruct (bounties s !! bid) as [row |] eqn:Hb.
      * rewrite (handleSubmissionCreated_known bm now _ _ _ _ s u row Hu Hb).
        destruct (js_date _); simpl; split; try done; by intros [? _].
      * rewrite (handleSubmissionCreated_no_bounty bm now _ _ _ _ s u Hu Hb).
        simpl. split; [by intros _; split | done].
    + destruct (hunter_stats s !! toLowerCase hunter) as [row |] eqn:Hs.
      * rewrite (handleSubmissionCreated_clash bm now _ _ _ _ s row Hu Hs). simpl.
        split; [done |]. intros [_ H]. by specialize (H eq_refl).
      * rewrite (handleSubmissionCreated_new bm now _ _ _ _ s Hu Hs).
        assert (Hu' : users (with_hunter (toLowerCase hunter) s) !! toLowerCase hunter
                      = Some {| u_id := users_id_seq s; u_role := "hunter" |})
          by (db_simpl; apply lookup_insert_eq).
        destruct (bounties s !! bid) as [row |] eqn:Hb.
        -- rewrite (handleSubmissionCreated_known bm now _ _ _ _ _ _ row Hu' Hb).
           destruct (js_date _); simpl; split; try done; by intros [? _].
        -- rewrite (handleSubmissionCreated_no_bounty bm now _ _ _ _ _ _ Hu' Hb).
           simpl. split; [by intros _; split | done].
  - intros w r Hr.
    destruct (users s !! toLowerCase hunter) as [u |] eqn:Hu.
    + destruct (rows_inv _ _ (handleSubmissionCreated_known_rows bm now sid bid hunter ev
                                s u Hu)) as (_ & -> & _). done.
    + destruct (hunter_stats s !! toLowerCase hunter) as [row |] eqn:Hs.
      * rewrite (handleSubmissionCreated_clash bm now _ _ _ _ s row Hu Hs). cbn [snd].
        unfold with_user. by rewrite Hu.
      * rewrite (handleSubmissionCreated_new bm now _ _ _ _ s Hu Hs).
        assert (Hu' : users (with_hunter (toLowerCase hunter) s) !! toLowerCase hunter
                      = Some {| u_id := users_id_seq s; u_role := "hunter" |})
          by (db_simpl; apply lookup_insert_eq).
        destruct (rows_inv _ _ (handleSubmissionCreated_known_rows bm now sid bid hunter ev
                                  _ _ Hu')) as (_ & -> & _).
        db_simpl. rewrite lookup_insert_ne; [done |]. intros <-. congruence.
Qed.

(** X9 (witness): a second submission of hunter 0xBB on bounty 7, which has
    a bounties row: the handler does not return normally, and the hunter's
    row still counts one submission. *)
Lemma handleSubmissionCreated_is_rejected_witness :
  is_Some (bounties db0 !! 7) /\
  fst (exec 1000 (handleSubmissionCreated chain0 4 7 "0xBB" ev_submission4) db0)
    <> Done tt /\
  hunter_stats (snd (exec 1000 (handleSubmissionCreated chain0 4 7 "0xBB" ev_submission4)
                       db0)) !! "0xbb"
    = Some {| total_earned := 0; successful_submissions := 0; total_submissions := 1 |}.
Proof.
  assert (Hb : is_Some (bounties db0 !! 7)) by (vm_compute; eauto).
  destruct (handleSubmissionCreated_is_rejected chain0 4 7 "0xBB" ev_submission4 1000 db0)
    as (Hiff & _ & Hst).
  split; [exact Hb | split].
  - intros Hd. apply Hiff in Hd as [Hn _]. rewrite Hn in Hb. by destruct Hb.
  - apply Hst. vm_compute. reflexivity.
Defined.

(** X10: a SubmissionCreated event for a bounty that is not indexed, from a
    hunter seen for the first time, is dropped only after the hunter has been
    registered: the handler returns normally, a users row with role hunter
    and an all-zero hunter_stats row have been inserted, and submissions is
    as it was. *)
Theorem handleSubmissionCreated_orphan bm sid bid hunter ev now s :
  users s !! toLowerCase hunter = None ->
  hunter_stats s !! toLowerCase hunter = None ->
  bounties s !! bid = None ->
  fst (exec now (handleSubmissionCreated bm sid bid hunter ev) s) = Done tt /\
  users (snd (exec now (handleSubmissionCreated bm sid bid hunter ev) s))
    = <[toLowerCase hunter := {| u_id := users_id_seq s; u_role := "hunter" |}]> (users s) /\
  hunter_stats (snd (exec now (handleSubmissionCreated bm sid bid hunter ev) s))
    = <[toLowerCase hunter := {| total_earned := 0; successful_submissions := 0;
                                 total_submissions := 0 |}]> (hunter_stats s) /\
  submissions (snd (exec now (handleSubmissionCreated bm sid bid hunter ev) s))
    = submissions s.
Proof.
  intros Hu Hs Hb.
  rewrite (handleSubmissionCreated_new bm now _ _ _ _ s Hu Hs).
  assert (Hu' : users (with_hunter (toLowerCase hunter) s) !! toLowerCase hunter
                = Some {| u_id := users_id_seq s; u_role := "hunter" |})
    by (db_simpl; apply lookup_insert_eq).
  by rewrite (handleSubmissionCreated_no_bounty bm now _ _ _ _ _ _ Hu' Hb).
Qed.

(** X10 (witness): bounty 99 is not indexed and hunter 0xFF is unknown; the hunter gets
    users id 3 and no submission is recorded. *)
Lemma handleSubmissionCreated_orphan_witness :
  bounties db0 !! 99 = None /\
  fst (exec 1000 (handleSubmissionCreated chain0 5 99 "0xFF" ev_orphan_submission) db0)
    = Done tt /\
  users (snd (exec 1000 (handleSubmissionCreated chain0 5 99 "0xFF" ev_orphan_submission) db0))
    = <["0xff" := {| u_id := 3; u_role := "hunter" |}]> (users db0) /\
  submissions (snd (exec 1000 (handleSubmissionCreated chain0 5 99 "0xFF"
                                 ev_orphan_submission) db0)) = submissions db0.
Proof.
  assert (Hu : users db0 !! toLowerCase "0xFF" = None) by (vm_compute; reflexivity).
  assert (Hh : hunter_stats db0 !! toLowerCase "0xFF" = None) by (vm_compute; reflexivity).
  assert (Hb : bounties db0 !! 99 = None) by (vm_compute; reflexivity).
  destruct (handleSubmissionCreated_orphan chain0 5 99 "0xFF" ev_orphan_submission 1000 db0
              Hu Hh Hb) as (H1 & H2 & _ & H4).
  split; [exact Hb | split; [exact H1 | split; [exact H2 | exact H4]]].
Defined.

(** ** Every event of the backfilled range falls in one batch *)

Lemma batch_ranges_partition lastBlock currentBlock bs block :
  0 < bs ->
  lastBlock <= block <= currentBlock ->
  exists k f t,
    batch_ranges lastBlock currentBlock bs !! k = Some (f, t) /\
    lastBlock <= f /\ f <= block <= t /\ t <= currentBlock /\
    forall k' f' t',
      batch_ranges lastBlock currentBlock bs !! k' = Some (f', t') ->
      f' <= block <= t' -> k' = k.
Proof.
  intros Hbs Hblock.
  set (K := Z.to_nat ((block - lastBlock) / bs)).
  assert (HK : Z.of_nat K = (block - lastBlock) / bs).
  { unfold K. rewrite Z2Nat.id; [done |]. apply Z.div_pos; lia. }
  pose proof (Z.mul_div_le (block - lastBlock) bs Hbs) as Hlo.
  pose proof (Z.mul_succ_div_gt (block - lastBlock) bs Hbs) as Hhi.
  exists K, (lastBlock + Z.of_nat K * bs),
    (Z.min (lastBlock + (Z.of_nat K + 1) * bs - 1) currentBlock).
  split; [| split; [nia | split; [split; [nia | apply Z.min_glb; nia] | split; [lia |]]]].
  - rewrite batch_ranges_lookup by done.
    destruct (Z.leb_spec (lastBlock + Z.of_nat K * bs) currentBlock); [done | nia].
  - intros k' f' t'. rewrite batch_ranges_lookup by done.
    destruct (Z.leb_spec (lastBlock + Z.of_nat k' * bs) currentBlock); [| done].
    intros [= <- <-] [Hf Ht].
    assert (Ht' : block <= lastBlock + (Z.of_nat k' + 1) * bs - 1) by lia.
    apply Nat2Z.inj. nia.
Qed.

Lemma queryFilter_NoDup bm name fromBlock toBlock :
  NoDup (chain_log bm) -> NoDup (queryFilter bm name fromBlock toBlock).
Proof.
  intros H. unfold queryFilter.
  apply NoDup_ListNoDup, List.NoDup_filter. by apply NoDup_ListNoDup.
Qed.

Lemma batch_events_NoDup bm fromBlock toBlock :
  NoDup (chain_log bm) -> NoDup (batch_events bm fromBlock toBlock).
Proof.
  intros H. unfold batch_events.
  repeat (apply NoDup_app; split; [by apply queryFilter_NoDup | split]);
    try by apply queryFilter_NoDup.
  all: intros x Hx Hy; rewrite ?elem_of_app in Hy;
    rewrite !queryFilter_elem in *;
    destruct Hx as (_ & Hn & _);
    repeat (destruct Hy as [Hy | Hy]); destruct Hy as (_ & Hn' & _); congruence.
Qed.

Lemma exec_forEach_ext {X} now (xs : list X) (f g : X -> prog unit) s :
  (forall x s', exec now (f x) s' = exec now (g x) s') ->
  exec now (forEach xs f) s = exec now (forEach xs g) s.
Proof.
  intros Hfg. revert s. induction xs as [| x xs IH]; intros s; [done |].
  cbn [forEach]. rewrite !exec_bind, Hfg.
  destruct (exec now (g x) s) as [[[] | e] s']; [apply IH | done].
Qed.

(** X11: one run of the historical loop, and the events it hands to the handlers.
    getLastIndexedBlock returns a number only when indexer_state holds no row
    for the (contract, network) pair; the loop then starts at the start
    block of the environment.  With that block below the head and a positive
    batch size, the run is the run of the handlers on the events of the
    successive ranges, range after range (until one of them throws), each
    range followed by its checkpoint update; and with a log without
    duplicates, every logged event whose block lies between the start block
    and the head is among the events of exactly one range, once. *)
Theorem backfill_applies_each_event_once bm cfg now s e :
  0 < batchSize cfg ->
  NoDup (chain_log bm) ->
  indexer_state s !! (contract_address cfg, network cfg) = None ->
  checkpointBlock cfg s < getBlockNumber bm ->
  exec now (indexHistoricalEvents bm cfg) s =
    exec now
      (forEach (batch_ranges (checkpointBlock cfg s) (getBlockNumber bm) (batchSize cfg))
         (fun r => forEach (batch_events bm (fst r) (snd r)) (handleEvent bm) ;;
                   updateLastIndexedBlock cfg (snd r))) s /\
  (e ∈ chain_log bm ->
   checkpointBlock cfg s <= blockNumber e <= getBlockNumber bm ->
   exists k f t,
     batch_ranges (checkpointBlock cfg s) (getBlockNumber bm) (batchSize cfg) !! k
       = Some (f, t) /\
     e ∈ batch_events bm f t /\
     NoDup (batch_events bm f t) /\
     forall k' f' t',
       batch_ranges (checkpointBlock cfg s) (getBlockNumber bm) (batchSize cfg) !! k'
         = Some (f', t') ->
       e ∈ batch_events bm f' t' -> k' = k).
Proof.
  intros Hbs Hnd Hrow Hlt. split.
  - rewrite indexHistoricalEvents_exec, js_ge_lastIndexedBlock.
    destruct (Z.geb_spec (checkpointBlock cfg s) (getBlockNumber bm)); [lia |].
    unfold lastIndexedBlock, checkpointBlock. rewrite Hrow.
    rewrite js_batch_ranges_number, forEach_map. cbn [fst snd].
    apply exec_forEach_ext. intros r s'. apply indexBatch_applies_batch_events.
  - intros He Hblock.
    destruct (batch_ranges_partition (checkpointBlock cfg s) (getBlockNumber bm)
                (batchSize cfg) (blockNumber e) Hbs Hblock)
      as (k & f & t & Hk & _ & Hft & _ & Huniq).
    exists k, f, t. split; [done |]. split; [by apply batch_events_elem |].
    split; [by apply batch_events_NoDup |].
    intros k' f' t' Hk' He'. apply batch_events_elem in He' as [_ He'].
    by eapply Huniq.
Qed.

(** X11 (witness): no checkpoint row, start block 100, head 125, batches of 10:
    the RewardPaid event of block 104. *)
Lemma backfill_applies_each_event_once_witness :
  indexer_state empty_db !! (contract_address cfg0, network cfg0) = None /\
  checkpointBlock cfg0 empty_db = 100 /\
  exists k f t,
    batch_ranges (checkpointBlock cfg0 empty_db) (getBlockNumber chain0) (batchSize cfg0)
      !! k = Some (f, t) /\
    ev_paid3 ∈ batch_events chain0 f t /\
    NoDup (batch_events chain0 f t).
Proof.
  assert (Hbs : 0 < batchSize cfg0) by (vm_compute; reflexivity).
  assert (Hrow : indexer_state empty_db !! (contract_address cfg0, network cfg0) = None)
    by (vm_compute; reflexivity).
  assert (Hlt : checkpointBlock cfg0 empty_db < getBlockNumber chain0)
    by (vm_compute; reflexivity).
  assert (Hin : ev_paid3 ∈ chain_log chain0) by (simpl; repeat constructor).
  assert (Hblock : checkpointBlock cfg0 empty_db <= blockNumber ev_paid3
                   <= getBlockNumber chain0) by (vm_compute; split; discriminate).
  destruct (backfill_applies_each_event_once chain0 cfg0 1000 empty_db ev_paid3 Hbs
              chain0_log_NoDup Hrow Hlt) as (_ & H).
  destruct (H Hin Hblock) as (k & f & t & H1 & H2 & H3 & _).
  split; [exact Hrow | split; [vm_compute; reflexivity |]].
  exists k, f, t. split; [exact H1 | split; [exact H2 | exact H3]].
Defined.

(** ** The checkpoint across [start] *)

(** X12: reading the checkpoint right after writing it.  [updateLastIndexedBlock
    block] followed by [getLastIndexedBlock] returns, when the (contract,
    network) row exists, the string of the decimal digits of [block], for
    every block, 0 included: a string whose numeric value is [block], and
    not the number that was written.  When the row is missing the UPDATE
    matched nothing and the read falls back to the number
    INDEXER_START_BLOCK (or 0). *)
Theorem checkpoint_round_trip cfg (block : Z) now s :
  fst (exec now (updateLastIndexedBlock cfg block ;; getLastIndexedBlock cfg) s) =
    Done (match indexer_state s !! (contract_address cfg, network cfg) with
          | Some _ => JString (decimal block)
          | None => JNumber (or_default (INDEXER_START_BLOCK cfg) 0)
          end) /\
  ToNumber (JString (decimal block)) = JNumber block /\
  JString (decimal block) <> JNumber block.
Proof.
  split; [| split; [apply ToNumber_decimal | done]].
  rewrite exec_bind. simpl. rewrite lookup_alter_eq.
  by destruct (indexer_state s !! _).
Qed.

Lemma initializeState_exec cfg now s :
  exec now (initializeState cfg) s =
  (Done tt,
   set_indexer_state
     (insert (contract_address cfg, network cfg)
        {| last_block := checkpointBlock cfg s; last_updated := now |}) s).
Proof.
  unfold initializeState, checkpointBlock. simpl.
  by destruct (indexer_state s !! _).
Qed.

(** X13: what [start] does before it registers the listeners.  [initialize]
    leaves a checkpoint row: the row that was there with last_updated set
    anew, or a new row at the start block of the environment.  The
    checkpoint that historical indexing then reads is therefore the string
    of that row's last_block.  If its value is at or beyond the head,
    nothing is fetched and [start] goes on to register the listeners; if it
    is below the head, ethers refuses the first queryFilter of the loop and
    [start] ends in its catch.  Either way no event of the log is applied
    and nothing but that indexer_state row is written. *)
Theorem start_outcome bm cfg now s :
  exec now (start bm cfg) s =
    (if checkpointBlock cfg s >=? getBlockNumber bm
     then Done tt else Thrown InvalidBlockTag,
     set_indexer_state
       (insert (contract_address cfg, network cfg)
          {| last_block := checkpointBlock cfg s; last_updated := now |}) s).
Proof.
  unfold start, initialize. rewrite exec_bind, initializeState_exec.
  set (s1 := set_indexer_state _ s).
  assert (Hrow : indexer_state s1 !! (contract_address cfg, network cfg)
                 = Some {| last_block := checkpointBlock cfg s; last_updated := now |})
    by (unfold s1; simpl; apply lookup_insert_eq).
  destruct (Z.geb_spec (checkpointBlock cfg s) (getBlockNumber bm)) as [Hge | Hlt].
  - rewrite indexHistoricalEvents_exec, js_ge_lastIndexedBlock.
    unfold checkpointBlock at 1. rewrite Hrow. cbn [last_block].
    by destruct (Z.geb_spec (checkpointBlock cfg s) (getBlockNumber bm)); [| lia].
  - by apply (indexHistoricalEvents_refused bm cfg now s1 _ Hrow).
Qed.

(** ** The batch size does not change what one event type sees *)

Lemma queryFilter_empty_range (log : list event) name fromBlock toBlock :
  (forall e, e ∈ log -> toBlock < blockNumber e \/ toBlock < fromBlock) ->
  List.filter
    (fun e => event_name_eqb (name_of (args e)) name && in_range fromBlock toBlock e) log
  = [].
Proof.
  induction log as [| x l IH]; intros Hall; simpl; [done |].
  rewrite IH by (intros e He; apply Hall; by right).
  destruct (Hall x) as [H | H]; [by left | |];
    unfold in_range;
    destruct (Z.leb_spec fromBlock (blockNumber x)), (Z.leb_spec (blockNumber x) toBlock);
    rewrite ?andb_false_r; simpl; try done; lia.
Qed.

Lemma filter_all_false {A} (p : A -> bool) l :
  (forall x, x ∈ l -> p x = false) -> List.filter p l = [].
Proof.
  induction l as [| x l IH]; intros Hall; simpl; [done |].
  rewrite (Hall x) by (by left). apply IH. intros y Hy. apply Hall. by right.
Qed.

Lemma filter_split_sorted {A} (p1 p2 p : A -> bool) l :
  (forall x, p x = p1 x || p2 x) ->
  (forall x, p1 x = true -> p2 x = false) ->
  StronglySorted (fun x y => p2 x = true -> p1 y = false) l ->
  (List.filter p1 l ++ List.filter p2 l)%list = List.filter p l.
Proof.
  intros Hp Hex Hs. induction Hs as [| x l Hl IH Hx]; [done |].
  cbn [List.filter]. rewrite Hp.
  destruct (p1 x) eqn:E1.
  - rewrite (Hex x E1). simpl. by rewrite IH.
  - destruct (p2 x) eqn:E2; simpl; [| exact IH].
    rewrite <- IH. rewrite (filter_all_false p1 l); [done |].
    intros y Hy. rewrite List.Forall_forall in Hx.
    apply Hx; [by apply list_elem_of_In | done].
Qed.

Lemma StronglySorted_weaken {A} (R R' : A -> A -> Prop) l :
  (forall x y, R x y -> R' x y) -> StronglySorted R l -> StronglySorted R' l.
Proof.
  intros HR. induction 1 as [| x l Hl IH Hx]; constructor; [done |].
  eapply List.Forall_impl; [| exact Hx]. intros y. apply HR.
Qed.

Lemma queryFilter_split_log (log : list event) name fromBlock mid toBlock :
  StronglySorted event_key_lt log ->
  fromBlock <= mid + 1 -> mid <= toBlock ->
  (List.filter
     (fun e => event_name_eqb (name_of (args e)) name && in_range fromBlock mid e) log ++
   List.filter
     (fun e => event_name_eqb (name_of (args e)) name && in_range (mid + 1) toBlock e) log)%list
  = List.filter
      (fun e => event_name_eqb (name_of (args e)) name && in_range fromBlock toBlock e) log.
Proof.
  intros Hs Hf Ht. apply filter_split_sorted.
  - intros x. unfold in_range. destruct (event_name_eqb _ _); simpl; [| done].
    destruct (Z.leb_spec fromBlock (blockNumber x)), (Z.leb_spec (blockNumber x) mid),
             (Z.leb_spec (mid + 1) (blockNumber x)), (Z.leb_spec (blockNumber x) toBlock);
      simpl; try done; lia.
  - intros x. unfold in_range. destruct (event_name_eqb _ _); simpl; [| done].
    destruct (Z.leb_spec fromBlock (blockNumber x)), (Z.leb_spec (blockNumber x) mid),
             (Z.leb_spec (mid + 1) (blockNumber x)), (Z.leb_spec (blockNumber x) toBlock);
      simpl; try done; lia.
  - eapply StronglySorted_weaken; [| exact Hs].
    intros x y Hxy. unfold in_range.
    destruct (event_name_eqb (name_of (args x)) name),
             (event_name_eqb (name_of (args y)) name); simpl; try done.
    destruct (Z.leb_spec (mid + 1) (blockNumber x)), (Z.leb_spec (blockNumber x) toBlock),
             (Z.leb_spec fromBlock (blockNumber y)), (Z.leb_spec (blockNumber y) mid);
      simpl; try done.
    destruct Hxy as [Hlt | [Heq _]]; lia.
Qed.

Lemma queryFilter_split bm name fromBlock mid toBlock :
  StronglySorted event_key_lt (chain_log bm) ->
  fromBlock <= mid + 1 -> mid <= toBlock ->
  (queryFilter bm name fromBlock mid ++ queryFilter bm name (mid + 1) toBlock)%list
  = queryFilter bm name fromBlock toBlock.
Proof. apply queryFilter_split_log. Qed.

Lemma queryFilter_loop bm name cb bs fuel i :
  0 < bs -> StronglySorted event_key_lt (chain_log bm) ->
  (Z.to_nat (cb - i + 1) <= fuel)%nat ->
  concat (map (fun j => queryFilter bm name j (Z.min (j + bs - 1) cb))
            (loop_indices fuel i cb bs))
  = queryFilter bm name i cb.
Proof.
  intros Hbs Hs. revert i. induction fuel as [| fuel IH]; intros i Hfuel.
  - simpl. symmetry. apply queryFilter_empty_range. intros e _. right. lia.
  - simpl. destruct (Z.leb_spec i cb) as [Hle | Hgt].
    + simpl. rewrite IH by lia.
      destruct (Z.le_gt_cases (i + bs - 1) cb) as [Hin | Hout].
      * rewrite Z.min_l by done.
        rewrite <- (queryFilter_split bm name i (i + bs - 1) cb) by (done || lia).
        by replace (i + bs - 1 + 1) with (i + bs) by lia.
      * rewrite Z.min_r by lia.
        unfold queryFilter at 2.
        rewrite queryFilter_empty_range; [by rewrite app_nil_r |].
        intros e _. right. lia.
    + simpl. symmetry. apply queryFilter_empty_range. intros e _. right. lia.
Qed.

(** X15: with a positive batch size and the log in chain order, the events of
    one type fetched batch after batch are the events of that type in the
    whole range, in the same order: the batch size changes how events of
    different types interleave, never the order or the set of events within
    one type. *)
Theorem batching_keeps_type_order bm name lastBlock currentBlock bs :
  0 < bs ->
  StronglySorted event_key_lt (chain_log bm) ->
  concat (map (fun r => queryFilter bm name (fst r) (snd r))
            (batch_ranges lastBlock currentBlock bs))
  = queryFilter bm name lastBlock currentBlock.
Proof.
  intros Hbs Hs. unfold batch_ranges. rewrite map_map. unfold batch_range. simpl.
  by apply queryFilter_loop.
Qed.

(** X15 (witness): the BountyCreated events of blocks 100 to 125, fetched in batches
    of 2. *)
Lemma batching_keeps_type_order_witness :
  StronglySorted event_key_lt (chain_log chain0) /\
  concat (map (fun r => queryFilter chain0 EBountyCreated (fst r) (snd r))
            (batch_ranges 100 125 2))
  = queryFilter chain0 EBountyCreated 100 125.
Proof.
  assert (Hbs : 0 < 2) by lia.
  split; [exact chain0_log_sorted |].
  exact (batching_keeps_type_order chain0 EBountyCreated 100 125 2 Hbs chain0_log_sorted).
Defined.

(** ** Wallet addresses are stored in lower case *)

Lemma lower_ascii_idemp c : lower_ascii (lower_ascii c) = lower_ascii c.
Proof. destruct c as [[] [] [] [] [] [] [] []]; reflexivity. Qed.

Lemma toLowerCase_idemp w : toLowerCase (toLowerCase w) = toLowerCase w.
Proof. induction w as [| c w IH]; simpl; [done |]. by rewrite lower_ascii_idemp, IH. Qed.

Lemma lowercase_keys_steps bm cfg :
  steps_within (keeps lowercase_keys) (start bm cfg) /\
  (forall ev, steps_within (keeps lowercase_keys) (handleEvent bm ev)).
Proof.
  assert (H1 : forall w r,
             statement_within (keeps lowercase_keys) (insert_user (toLowerCase w) r)).
  { intros w r now s [HU HS]. unfold insert_user.
    destruct (users s !! toLowerCase w) as [u |] eqn:Hu; [done |].
    split; [| done]. intros w'. db_simpl. rewrite lookup_insert_is_Some'.
    intros [<- | Hw]; [apply toLowerCase_idemp | by apply HU]. }
  assert (H2 : forall w,
             statement_within (keeps lowercase_keys) (insert_hunter_stats (toLowerCase w))).
  { intros w now s [HU HS]. unfold insert_hunter_stats.
    destruct (hunter_stats s !! toLowerCase w) as [u |] eqn:Hu; [done |].
    split; [done |]. intros w'. db_simpl. rewrite lookup_insert_is_Some'.
    intros [<- | Hw]; [apply toLowerCase_idemp | by apply HS]. }
  assert (H3 : forall b c t r1 r2 l st d a p bn tx cr,
             statement_within (keeps lowercase_keys)
               (upsert_bounty b c t r1 r2 l st d a p bn tx cr))
    by (intros b c t r1 r2 l st d a p bn tx cr now s H; unfold upsert_bounty;
        by destruct d, cr).
  assert (H4 : forall i b h sv st rw sb p bn tx,
             statement_within (keeps lowercase_keys)
               (upsert_submission i b h sv st rw sb p bn tx))
    by (intros i b h sv st rw sb p bn tx now s H; unfold upsert_submission;
        by destruct sb).
  assert (H5 : forall w,
             statement_within (keeps lowercase_keys) (increment_total_submissions w)).
  { intros w now s [HU HS]. split; [done |]. intros w'. db_simpl.
    rewrite lookup_alter_is_Some. apply HS. }
  assert (H6 : forall sv st i,
             statement_within (keeps lowercase_keys) (update_submission_validated sv st i))
    by (intros; intros now s H; exact H).
  assert (H7 : forall a i,
             statement_within (keeps lowercase_keys) (update_submission_paid a i))
    by (intros; intros now s H; exact H).
  assert (H8 : forall a w, statement_within (keeps lowercase_keys) (increment_earned a w)).
  { intros a w now s [HU HS]. split; [done |]. intros w'. db_simpl.
    rewrite lookup_alter_is_Some. apply HS. }
  assert (H9 : forall b, statement_within (keeps lowercase_keys) (update_bounty_completed b))
    by (intros; intros now s H; exact H).
  assert (H10 : forall c n st,
             statement_within (keeps lowercase_keys) (upsert_indexer_state c n st))
    by (intros; intros now s H; exact H).
  assert (H11 : forall b c n,
             statement_within (keeps lowercase_keys) (update_last_block b c n))
    by (intros; intros now s H; exact H).
  split.
  - exact (start_within (keeps lowercase_keys) (keeps_refl _)
             H1 H2 H3 H4 H5 H6 H7 H8 H9 H10 H11 bm cfg).
  - intros ev.
    exact (handleEvent_within (keeps lowercase_keys) (keeps_refl _)
             H1 H2 H3 H4 H5 H6 H7 H8 H9 bm ev).
Qed.

(** X16: wallet addresses are stored in lower case.  If the keys of users and
    hunter_stats are in lower case they remain so, at whatever statement
    [start] is interrupted and after any sequence of real-time arrivals, in
    whatever order the statements of their handlers run; and
    the handlers that take a wallet do the same whatever the case in which
    the event spells it. *)
Theorem wallets_are_case_normalised bm cfg n now arrivals s :
  lowercase_keys s ->
  lowercase_keys (snd (exec_until n now (start bm cfg) s)) /\
  lowercase_keys (realtime bm arrivals s) /\
  (forall b c tr ev,
     handleBountyCreated bm b (toLowerCase c) tr ev = handleBountyCreated bm b c tr ev) /\
  (forall sid bid h ev,
     handleSubmissionCreated bm sid bid (toLowerCase h) ev
     = handleSubmissionCreated bm sid bid h ev) /\
  (forall sid h a ev,
     handleRewardPaid sid (toLowerCase h) a ev = handleRewardPaid sid h a ev).
Proof.
  intros Hl. destruct (lowercase_keys_steps bm cfg) as (Hstart & Hev).
  split; [| split; [| split; [| split]]].
  - by apply (steps_within_exec_until (keeps lowercase_keys) (start bm cfg) n now s
                (keeps_refl _) (keeps_trans _)).
  - by apply (realtime_within (keeps lowercase_keys) bm arrivals s
                (keeps_refl _) (keeps_trans _)).
  - intros. unfold handleBountyCreated. by rewrite toLowerCase_idemp.
  - intros. unfold handleSubmissionCreated. by rewrite toLowerCase_idemp.
  - intros. unfold handleRewardPaid. by rewrite toLowerCase_idemp.
Qed.

(** X16 (witness): the database of the lifecycle, [start] interrupted after four
    statements, and the arrival of a BountyCreated and a SubmissionCreated. *)
Lemma wallets_are_case_normalised_witness :
  lowercase_keys db0 /\
  lowercase_keys (snd (exec_until 4 1000 (start chain0 cfg0) db0)) /\
  lowercase_keys (realtime chain0 (in_turn [(2000, ev_bounty8); (2001, ev_submission4)]) db0).
Proof.
  pose proof db0_lowercase_keys as H.
  destruct (wallets_are_case_normalised chain0 cfg0 4 1000
              (in_turn [(2000, ev_bounty8); (2001, ev_submission4)]) db0 H) as (H1 & H2 & _).
  split; [exact H | split; [exact H1 | exact H2]].
Defined.

(** ** Contract addresses, RPC endpoints and the Redis retry delay *)

Lemma env_or_nonempty e name fallback : fallback <> "" -> env_or e name fallback <> "".
Proof.
  intros Hf. unfold env_or. destruct (e !! name) as [v|]; [|done].
  by destruct (decide (v = "")).
Qed.

Lemma CONTRACT_ADDRESSES_lookup e net :
  net ∈ network_names -> is_Some (CONTRACT_ADDRESSES e !! net).
Proof.
  intros Hn. unfold network_names in Hn.
  repeat (apply elem_of_cons in Hn as [->|Hn]); try (by apply elem_of_nil in Hn);
    unfold CONTRACT_ADDRESSES; simpl.
  all: repeat (first [ rewrite lookup_insert_eq; eauto | rewrite lookup_insert_ne by done ]).
Qed.

Lemma CONTRACT_ADDRESSES_lookup_None e net :
  net ∉ network_names -> CONTRACT_ADDRESSES e !! net = None.
Proof.
  intros Hn. unfold network_names in Hn. unfold CONTRACT_ADDRESSES. simpl.
  repeat (rewrite lookup_insert_ne; [|intros <-; apply Hn; set_solver]).
  apply lookup_empty.
Qed.

Lemma getContractAddress_configured e name net :
  name ∈ contract_names -> net ∈ network_names ->
  exists a, getContractAddress e name (Some net) = Address a /\ a <> "".
Proof.
  unfold contract_names, network_names. intros Hname Hnet.
  repeat (apply elem_of_cons in Hname as [->|Hname]); try (by apply elem_of_nil in Hname);
  repeat (apply elem_of_cons in Hnet as [->|Hnet]); try (by apply elem_of_nil in Hnet).
  all: eexists; (split; [reflexivity|]); first [by apply env_or_nonempty | done].
Qed.

Lemma CONTRACT_ADDRESSES_table e net table name a :
  CONTRACT_ADDRESSES e !! net = Some table -> table !! name = Some a ->
  net ∈ network_names /\ name ∈ contract_names /\ a <> "".
Proof.
  intros Ht Ha. apply elem_of_list_to_map_2 in Ht.
  repeat (apply elem_of_cons in Ht as [Ht|Ht]); try (by apply elem_of_nil in Ht).
  all: injection Ht as -> ->.
  all: repeat (apply lookup_insert_Some in Ha as [[<- <-]|[_ Ha]]);
    try (by rewrite lookup_empty in Ha).
  all: split; [unfold network_names; repeat constructor|].
  all: split; [unfold contract_names; repeat constructor|].
  all: first [by apply env_or_nonempty | done].
Qed.

Lemma getContractAddress_Address e name net a :
  net <> "" ->
  getContractAddress e name (Some net) = Address a
  <-> exists table, CONTRACT_ADDRESSES e !! net = Some table /\ table !! name = Some a.
Proof.
  intros Hne. unfold getContractAddress, current_network, get_property.
  destruct (decide (net = "")) as [|_]; [done|].
  destruct (CONTRACT_ADDRESSES e !! net) as [table|].
  - destruct (table !! name) as [a'|] eqn:Hl.
    + split; [intros [= ->]; eauto | intros (? & [= <-] & Hl'); congruence].
    + split; [by case_bool_decide | intros (? & [= <-] & Hl'); congruence].
  - split; [by case_bool_decide | by intros (? & ? & ?)].
Qed.

Lemma network_names_nonempty net : net ∈ network_names -> net <> "".
Proof.
  intros Hn ->. unfold network_names in Hn.
  repeat (apply elem_of_cons in Hn as [?|Hn]; [done|]). by apply elem_of_nil in Hn.
Qed.

(** X17: for each of the five contract names and each of the five configured
    networks, [getContractAddress] does not throw and returns a non-empty
    string, whatever the environment holds: the configured address, or the
    zero address when the variable is unset or empty. *)
Theorem configured_networks_resolve e name net :
  name ∈ contract_names -> net ∈ network_names ->
  exists a,
    getContractAddress e name (Some net) = Address a /\ a <> "" /\
    (net <> "localhost" -> exists variable, a = env_or e variable ZERO_ADDRESS).
Proof.
  unfold contract_names, network_names. intros Hname Hnet.
  repeat (apply elem_of_cons in Hname as [->|Hname]); try (by apply elem_of_nil in Hname);
  repeat (apply elem_of_cons in Hnet as [->|Hnet]); try (by apply elem_of_nil in Hnet).
  all: eexists; (split; [reflexivity|]).
  all: split; [first [by apply env_or_nonempty | done] |].
  all: intros Hl; first [done | by eexists].
Qed.

(** X17 (witness): BountyManager on polygon. *)
Lemma configured_networks_resolve_witness :
  exists a,
    getContractAddress env0 "BountyManager" (Some "polygon") = Address a /\ a <> "" /\
    ("polygon" <> "localhost" -> exists variable, a = env_or env0 variable ZERO_ADDRESS).
Proof.
  assert (Hname : "BountyManager" ∈ contract_names) by (unfold contract_names; repeat constructor).
  assert (Hnet : "polygon" ∈ network_names) by (unfold network_names; repeat constructor).
  exact (configured_networks_resolve env0 "BountyManager" "polygon" Hname Hnet).
Defined.

(** X18: [getContractAddress] throws for a named network exactly when the
    name is neither one of the five configured networks nor the name of a
    member of Object.prototype: for the latter the table lookup is truthy,
    and the function returns without throwing. *)
Theorem getContractAddress_throws_iff e name net :
  net <> "" ->
  (exists n, getContractAddress e name (Some net) = NetworkNotSupported n)
  <-> (net ∉ network_names) /\ (net ∉ object_prototype_names).
Proof.
  intros Hne. unfold getContractAddress, current_network.
  destruct (decide (net = "")) as [|_]; [done|].
  unfold get_property.
  destruct (decide (net ∈ network_names)) as [Hin|Hnin].
  - destruct (CONTRACT_ADDRESSES_lookup e net Hin) as [table ->].
    split; [|tauto]. intros [n Hn]. by repeat case_match.
  - rewrite (CONTRACT_ADDRESSES_lookup_None e net Hnin).
    case_bool_decide; split; try tauto; try (intros [n Hn]; done).
    intros _. by eexists.
Qed.

(** X18 (witness): the network arbitrum is rejected. *)
Lemma getContractAddress_throws_iff_witness :
  "arbitrum" <> "" /\
  exists n, getContractAddress env0 "BountyManager" (Some "arbitrum") = NetworkNotSupported n.
Proof.
  assert (Hne : "arbitrum" <> "") by discriminate.
  split; [exact Hne |].
  apply (getContractAddress_throws_iff env0 "BountyManager" "arbitrum" Hne).
  split; apply (bool_decide_unpack _); vm_compute; exact I.
Defined.

(** X19: the address the indexer attaches its contract to.  With NODE_ENV set
    to production the network is mainnet and the address is read from
    BOUNTY_MANAGER_ADDRESS_MAINNET; otherwise the network is sepolia and the
    address is read from BOUNTY_MANAGER_ADDRESS; in both cases the zero
    address stands in for an unset or empty variable, and the lookup does
    not throw. *)
Theorem indexer_contract_address e :
  getContractAddress e "BountyManager" (Some (indexer_network e))
  = Address (env_or e (if decide (e !! "NODE_ENV" = Some "production")
                       then "BOUNTY_MANAGER_ADDRESS_MAINNET"
                       else "BOUNTY_MANAGER_ADDRESS") ZERO_ADDRESS).
Proof. unfold indexer_network. by destruct (decide _). Qed.

(** X20: on a configured network, [areContractsDeployed] answers true exactly
    when [getContractAddress] returns an address other than the zero address
    for each of the five contract names. *)
Theorem areContractsDeployed_iff e net :
  net ∈ network_names ->
  areContractsDeployed e (Some net) = true
  <-> forall name, name ∈ contract_names ->
        exists a, getContractAddress e name (Some net) = Address a /\ a <> ZERO_ADDRESS.
Proof.
  intros Hnet. pose proof (network_names_nonempty net Hnet) as Hne.
  unfold areContractsDeployed. rewrite forallb_forall. split.
  - intros Hall name Hname.
    destruct (getContractAddress_configured e name net Hname Hnet) as (a & Ha & _).
    exists a. split; [done|].
    apply (getContractAddress_Address e name net a Hne) in Ha as (table & Ht & Hl).
    specialize (Hall a). unfold getAllAddresses, current_network, get_property in Hall.
    destruct (decide (net = "")) as [|_]; [done|]. rewrite Ht in Hall.
    intros ->. discriminate Hall.
    apply list_elem_of_In, list_elem_of_fmap. exists (name, ZERO_ADDRESS).
    split; [done|]. by apply elem_of_map_to_list.
  - intros Hall a Hin. apply list_elem_of_In in Hin.
    unfold getAllAddresses, current_network, get_property in Hin.
    destruct (decide (net = "")) as [|_]; [done|].
    destruct (CONTRACT_ADDRESSES_lookup e net Hnet) as [table Ht]. rewrite Ht in Hin.
    apply list_elem_of_fmap in Hin as ([name a'] & -> & Hin). simpl.
    apply elem_of_map_to_list in Hin.
    destruct (CONTRACT_ADDRESSES_table e net table name a' Ht Hin) as (_ & Hname & Hne').
    destruct (Hall name Hname) as (a & Ha & Hz).
    apply (getContractAddress_Address e name net a Hne) in Ha as (table' & Ht' & Hl).
    rewrite Ht in Ht'. injection Ht' as <-. rewrite Hin in Hl. injection Hl as ->.
    apply andb_true_iff. split; apply negb_true_iff, String.eqb_neq; done.
Qed.

(** X20 (witness): on localhost all five addresses are set. *)
Lemma areContractsDeployed_iff_witness :
  "localhost" ∈ network_names /\
  forall name, name ∈ contract_names ->
    exists a, getContractAddress env0 name (Some "localhost") = Address a /\
              a <> ZERO_ADDRESS.
Proof.
  assert (Hnet : "localhost" ∈ network_names) by (unfold network_names; repeat constructor).
  split; [exact Hnet |].
  apply (areContractsDeployed_iff env0 "localhost" Hnet). vm_compute; reflexivity.
Defined.

(** X21: [areContractsDeployed] answers true for a network that is not
    configured, since [every] holds of the empty list of values; and for
    localhost, whatever the environment. *)
Theorem areContractsDeployed_without_addresses e net :
  net <> "" -> (net ∉ network_names) \/ net = "localhost" ->
  areContractsDeployed e (Some net) = true.
Proof.
  intros Hne [Hn | ->]; [|reflexivity].
  unfold areContractsDeployed, getAllAddresses, current_network, get_property.
  destruct (decide (net = "")) as [|_]; [done|].
  rewrite (CONTRACT_ADDRESSES_lookup_None e net Hn). by case_bool_decide.
Qed.

(** X21 (witness): the network arbitrum has no address table and counts as deployed. *)
Lemma areContractsDeployed_without_addresses_witness :
  "arbitrum" <> "" /\ areContractsDeployed env0 (Some "arbitrum") = true.
Proof.
  assert (Hne : "arbitrum" <> "") by discriminate.
  split; [exact Hne |].
  apply (areContractsDeployed_without_addresses env0 "arbitrum" Hne).
  left. apply (bool_decide_unpack _). vm_compute. exact I.
Defined.

Lemma truthy_nonempty v u : truthy v = true -> v = Some u -> u <> "".
Proof. intros Ht -> ->. done. Qed.

(** X22: when [getRpcUrl] returns a URL, the URL is not empty and the
    network is one of the five configured ones, so that the address lookups
    of [initializeContracts] that follow cannot throw. *)
Theorem rpc_url_implies_supported_network e net u :
  getRpcUrl e net = Url u ->
  u <> "" /\ net ∈ network_names /\
  forall name, name ∈ contract_names ->
    exists a, getContractAddress e name (Some net) = Address a.
Proof.
  unfold getRpcUrl, get_property. intros Hu.
  destruct (rpcUrls e !! net) as [[url|]|] eqn:Hl;
    [| done | by case_bool_decide].
  destruct (truthy (Some url)) eqn:Ht; [|done]. injection Hu as ->.
  split; [by eapply truthy_nonempty|].
  assert (net ∈ network_names) as Hnet.
  { apply elem_of_list_to_map_2 in Hl.
    repeat (apply elem_of_cons in Hl as [Hl|Hl]); try (by apply elem_of_nil in Hl).
    all: injection Hl as -> _; unfold network_names; repeat constructor. }
  split; [done|]. intros name Hname.
  destruct (getContractAddress_configured e name net Hname Hnet) as (a & Ha & _). eauto.
Qed.

(** X22 (witness): sepolia with SEPOLIA_RPC_URL set. *)
Lemma rpc_url_implies_supported_network_witness :
  getRpcUrl env0 "sepolia" = Url "https://sepolia.example" /\
  "sepolia" ∈ network_names /\
  forall name, name ∈ contract_names ->
    exists a, getContractAddress env0 name (Some "sepolia") = Address a.
Proof.
  assert (Hu : getRpcUrl env0 "sepolia" = Url "https://sepolia.example")
    by (vm_compute; reflexivity).
  destruct (rpc_url_implies_supported_network env0 "sepolia" _ Hu) as (_ & H2 & H3).
  split; [exact Hu | split; [exact H2 | exact H3]].
Defined.

(** X23: with SEPOLIA_RPC_URL unset or empty, [getRpcUrl] on sepolia returns
    what it returns on mainnet, the value of ETHEREUM_RPC_URL, and throws
    (naming sepolia) when that is unset or empty too. *)
Theorem getRpcUrl_sepolia_fallback e :
  truthy (e !! "SEPOLIA_RPC_URL") = false ->
  getRpcUrl e "sepolia"
  = match getRpcUrl e "mainnet" with
    | NotConfigured _ => NotConfigured "sepolia"
    | r => r
    end.
Proof.
  intros Hs.
  change (getRpcUrl e "sepolia")
    with (match js_or (e !! "SEPOLIA_RPC_URL") (e !! "ETHEREUM_RPC_URL") with
          | Some url => if truthy (Some url) then Url url else NotConfigured "sepolia"
          | None => NotConfigured "sepolia"
          end).
  change (getRpcUrl e "mainnet")
    with (match e !! "ETHEREUM_RPC_URL" with
          | Some url => if truthy (Some url) then Url url else NotConfigured "mainnet"
          | None => NotConfigured "mainnet"
          end).
  unfold js_or. rewrite Hs.
  destruct (e !! "ETHEREUM_RPC_URL") as [url|]; [|done].
  by destruct (truthy (Some url)).
Qed.

(** X23 (witness): only ETHEREUM_RPC_URL is set; sepolia uses it. *)
Lemma getRpcUrl_sepolia_fallback_witness :
  truthy (env1 !! "SEPOLIA_RPC_URL") = false /\
  getRpcUrl env1 "sepolia" = Url "https://eth.example".
Proof.
  assert (Hs : truthy (env1 !! "SEPOLIA_RPC_URL") = false) by (vm_compute; reflexivity).
  split; [exact Hs |].
  rewrite (getRpcUrl_sepolia_fallback env1 Hs). vm_compute. reflexivity.
Defined.

(** X24: the Redis reconnection delay.  From the first attempt on the delay
    lies between 50 ms and 2000 ms, never decreases from one attempt to a
    later one, and is at its cap of 2000 ms exactly from attempt 40 on. *)
Theorem retryStrategy_bounds times later :
  1 <= times -> times <= later ->
  50 <= retryStrategy times <= 2000 /\
  retryStrategy times <= retryStrategy later /\
  (retryStrategy times = 2000 <-> 40 <= times).
Proof. unfold retryStrategy. lia. Qed.

(** X24 (witness): attempts 3 and 50. *)
Lemma retryStrategy_bounds_witness :
  50 <= retryStrategy 3 <= 2000 /\ retryStrategy 3 <= retryStrategy 50.
Proof.
  assert (H1 : 1 <= 3) by lia. assert (H2 : 3 <= 50) by lia.
  destruct (retryStrategy_bounds 3 50 H1 H2) as (Ha & Hb & _).
  split; [exact Ha | exact Hb].
Defined.

